(** * createStreamingSVGRenderer: ingestion, transform stack, colours,
      highlights and the related-subgraph extraction

    A shallow embedding of [src/lib/createStreamingSVGRenderer.js].

    - JavaScript numbers are IEEE 754 binary64 values: they are modelled by
      Rocq's primitive [float], whose operations are the same roundings.
    - The closure variables of [createStreamingSVGRenderer] form the record
      [Renderer]; the functions of the closure run in a state-and-exception
      monad over it (a [throw] keeps the mutations made before it).
    - Strings are ASCII strings; [Map]s are [gmap]s; a [Set], whose iteration
      order is its insertion order, is a duplicate-free list.
    - [ngraph.graph] and the constants of [./constants] are not part of the
      file: the graph is modelled from the library's documented behaviour and
      the constants are fields of the class [Collaborators]. *)

From Stdlib Require Import ZArith Floats Ascii String List Bool Lia.
From stdpp Require Import gmap strings list.
Import ListNotations.

Local Open Scope string_scope.
Local Open Scope list_scope.
Local Open Scope Z_scope.

(* ===================================================================== *)
(** * The JavaScript primitives the file relies on *)
(* ===================================================================== *)

Module JS.

(** ** Numbers *)

Definition NaN : float := nan.

(** [Number.isFinite] *)
Definition isFinite (x : float) : bool := is_finite x.

(** [a === b] on numbers: IEEE equality ([NaN] differs from itself and
    [+0 === -0]). *)
Definition strictEq (a b : float) : bool := (a =? b)%float.

(** [Object.is(a, b)] on numbers: the same double. *)
Definition objectIs (a b : float) : bool := PrimFloat.Leibniz.eqb a b.

(** An integer-valued number, exact below [2^53] in magnitude. *)
Definition ofZ (z : Z) : float :=
  if z <? 0 then (- of_uint63 (Uint63.of_Z (- z)))%float
  else of_uint63 (Uint63.of_Z z).

(** The double nearest to the positive rational [num / den], ties to even;
    overflow gives [Infinity], underflow goes through the subnormals. *)
Definition roundRatio (num den : Z) : float :=
  if (num <=? 0) || (den <=? 0) then 0%float
  else
    let e1 := Z.log2 num - Z.log2 den - 52 in
    let scaled e := (num * 2 ^ Z.max (- e) 0) / (den * 2 ^ Z.max e 0) in
    let e2 := if 2 ^ 52 <=? scaled e1 then e1 else e1 - 1 in
    let e := Z.max e2 (-1074) in
    let N := num * 2 ^ Z.max (- e) 0 in
    let D := den * 2 ^ Z.max e 0 in
    let q := N / D in
    let r := N mod D in
    let q' := if (D <? 2 * r) || ((D =? 2 * r) && Z.odd q) then q + 1 else q in
    if 1024 <? e + 53 + (if q' =? 2 ^ 53 then 1 else 0) then infinity
    else Z.ldexp (of_uint63 (Uint63.of_Z q')) e.

(** The number denoted by the decimal [m * 10^dexp] with [0 <= m]. *)
Definition ofDecimal (m dexp : Z) : float :=
  if 0 <=? dexp then roundRatio (m * 10 ^ dexp) 1
  else roundRatio m (10 ^ (- dexp)).

(** [Math.min] and [Math.max] of two numbers: [NaN] if either is, and
    [-0] below [+0]. *)
Definition Math_min (a b : float) : float :=
  if is_nan a || is_nan b then NaN
  else if (a <? b)%float then a
  else if (b <? a)%float then b
  else if get_sign a then a else b.

Definition Math_max (a b : float) : float :=
  if is_nan a || is_nan b then NaN
  else if (a <? b)%float then b
  else if (b <? a)%float then a
  else if get_sign a then b else a.

(** [Math.round]: the integer nearest to [x], halves going up; a result
    of zero keeps the sign of [x]. *)
Definition Math_round (x : float) : float :=
  match Prim2SF x with
  | S754_finite s m e =>
      if 0 <=? e then x
      else
        let n := (2 * (if s then Z.neg m else Z.pos m) + 2 ^ (- e)) / 2 ^ (- e + 1) in
        if n =? 0 then (if s then (-0)%float else 0%float) else ofZ n
  | _ => x
  end.

(** ** 32-bit integers *)

(** The signed 32-bit integer congruent to [z] modulo [2^32]. *)
Definition wrap32 (z : Z) : Z := (z + 2 ^ 31) mod 2 ^ 32 - 2 ^ 31.

(** [ToInt32]: truncate towards zero, then wrap; [NaN] and the
    infinities give [0]. *)
Definition ToInt32 (x : float) : Z :=
  match Prim2SF x with
  | S754_finite s m e =>
      let t := if 0 <=? e then Z.pos m * 2 ^ e else Z.pos m / 2 ^ (- e) in
      wrap32 (if s then - t else t)
  | _ => 0
  end.

(** [a << k], [a >> k], [a & b] and [a | b] on operands already converted
    by [ToInt32]. *)
Definition shl (a k : Z) : Z := wrap32 (Z.shiftl a (Z.land k 31)).
Definition sar (a k : Z) : Z := Z.shiftr a (Z.land k 31).
Definition band (a b : Z) : Z := Z.land a b.
Definition bor (a b : Z) : Z := Z.lor a b.

(** ** Strings *)

Definition isWhiteSpace (c : ascii) : bool :=
  let n := nat_of_ascii c in
  ((9 <=? n) && (n <=? 13))%nat || (n =? 32)%nat.

Definition isLineTerminator (c : ascii) : bool :=
  let n := nat_of_ascii c in (n =? 10)%nat || (n =? 13)%nat.

Fixpoint trimStart (s : string) : string :=
  match s with
  | String c s' => if isWhiteSpace c then trimStart s' else s
  | EmptyString => s
  end.

(** [s.substr(1)] *)
Definition substr1 (s : string) : string :=
  match s with
  | String _ s' => s'
  | EmptyString => EmptyString
  end.

(** [s.split(sep)] for a separator of one character. *)
Fixpoint split (sep : ascii) (s : string) : list string :=
  match s with
  | EmptyString => [EmptyString]
  | String c s' =>
      if Ascii.eqb c sep then EmptyString :: split sep s'
      else match split sep s' with
           | x :: xs => String c x :: xs
           | [] => [String c EmptyString]
           end
  end.

Definition digitValue (c : ascii) : option Z :=
  let n := nat_of_ascii c in
  if ((48 <=? n) && (n <=? 57))%nat then Some (Z.of_nat n - 48) else None.

(** The longest run of decimal digits at the head of [s]: their value
    appended to [acc], their count, and the rest of the string. *)
Fixpoint takeDigits (s : string) (acc : Z) (count : Z) : Z * Z * string :=
  match s with
  | String c s' =>
      match digitValue c with
      | Some d => takeDigits s' (10 * acc + d) (count + 1)
      | None => (acc, count, s)
      end
  | EmptyString => (acc, count, s)
  end.

(** The sign of a literal: [true] for a leading [-]. *)
Definition takeSign (s : string) : bool * string :=
  match s with
  | String "-" s' => (true, s')
  | String "+" s' => (false, s')
  | _ => (false, s)
  end.

(** The exponent part [e], [e+] or [e-] followed by digits, when the
    string starts with one; otherwise the exponent is [0]. *)
Definition takeExponent (s : string) : Z :=
  match s with
  | String c s' =>
      if Ascii.eqb c "e" || Ascii.eqb c "E" then
        let '(neg, s'') := takeSign s' in
        let '(v, n, _) := takeDigits s'' 0 0 in
        if n =? 0 then 0 else if neg then - v else v
      else 0
  | EmptyString => 0
  end.

(** The value of the longest prefix of [s] that is an unsigned decimal
    literal ([Infinity], [12], [12.], [12.5], [.5], each but the first
    with an optional exponent), or [NaN] when there is none. *)
Definition unsignedLiteral (s : string) : float :=
  if String.prefix "Infinity" s then infinity
  else
    let '(i, ni, s1) := takeDigits s 0 0 in
    match s1 with
    | String "." s2 =>
        let '(m, nf, s3) := takeDigits s2 i 0 in
        if (ni =? 0) && (nf =? 0) then NaN
        else ofDecimal m (takeExponent s3 - nf)
    | _ => if ni =? 0 then NaN else ofDecimal i (takeExponent s1)
    end.

(** [Number.parseFloat] *)
Definition parseFloat (s : string) : float :=
  let '(neg, s') := takeSign (trimStart s) in
  let v := unsignedLiteral s' in
  if neg then (- v)%float else v.

(** [Number.parseFloat(undefined)]: the argument is first converted to
    the string ["undefined"]. *)
Definition parseFloatOpt (o : option string) : float :=
  match o with
  | Some s => parseFloat s
  | None => NaN
  end.

Definition lowerCase (c : ascii) : ascii :=
  let n := nat_of_ascii c in
  if ((65 <=? n) && (n <=? 90))%nat then ascii_of_nat (n + 32) else c.

(** The rest of [s] after the prefix [p], compared without case. *)
Fixpoint skipPrefixCI (p s : string) : option string :=
  match p, s with
  | EmptyString, _ => Some s
  | String a p', String b s' =>
      if Ascii.eqb (lowerCase a) (lowerCase b) then skipPrefixCI p' s' else None
  | String _ _, EmptyString => None
  end.

(** [s] without its last character, when that character is [c]. *)
Fixpoint dropLast (c : ascii) (s : string) : option string :=
  match s with
  | EmptyString => None
  | String a EmptyString => if Ascii.eqb a c then Some EmptyString else None
  | String a s' => option_map (String a) (dropLast c s')
  end.

Fixpoint allChars (p : ascii -> bool) (s : string) : bool :=
  match s with
  | EmptyString => true
  | String c s' => p c && allChars p s'
  end.

(** The group of [/matrix\((.+)\)$/i] for a match that starts at the
    head of [s]: what lies between [matrix(] and the closing parenthesis
    that ends the string, not empty and free of line terminators. *)
Definition matrixGroupHere (s : string) : option string :=
  match skipPrefixCI "matrix(" s with
  | Some rest =>
      match dropLast ")" rest with
      | Some body =>
          if negb (String.eqb body "") && allChars (fun c => negb (isLineTerminator c)) body
          then Some body else None
      | None => None
      end
  | None => None
  end.

(** [str.match(/matrix\((.+)\)$/i)]: the group of the leftmost match. *)
Fixpoint matchMatrix (s : string) : option string :=
  match matrixGroupHere s with
  | Some g => Some g
  | None =>
      match s with
      | EmptyString => None
      | String _ s' => matchMatrix s'
      end
  end.

End JS.

(* ===================================================================== *)
(** * Errors and the state-and-exception monad *)
(* ===================================================================== *)

(** The exceptions of the file, one constructor per [throw] site (named
    after the specification's taxonomy where it has a name for it), and
    the [TypeError] the engine raises on a property read or a method call
    on [undefined]. *)
Inductive error : Type :=
| InvalidViewBox (raw : option string)
| DuplicateNodeName (nodeName : string)
| InvalidNumericAttribute (tag attr : string)
| UnbalancedTransformStack
| MalformedTransform (str : string)
| UnsupportedTransform
| TypeError (what : string).

Inductive result (A : Type) : Type :=
| Ok (a : A)
| Throw (e : error).
Arguments Ok {A} a.
Arguments Throw {A} e.

Definition isOk {A} (r : result A) : bool :=
  match r with Ok _ => true | Throw _ => false end.

(** A computation over the mutable state [S]: the state after it, and its
    value or the exception that interrupted it. *)
Definition M (S A : Type) : Type := S -> S * result A.

Definition ret {S A} (a : A) : M S A := fun st => (st, Ok a).
Definition throw {S A} (e : error) : M S A := fun st => (st, Throw e).
Definition bind {S A B} (m : M S A) (k : A -> M S B) : M S B :=
  fun st =>
    match m st with
    | (st', Ok a) => k a st'
    | (st', Throw e) => (st', Throw e)
    end.
Definition gets {S A} (f : S -> A) : M S A := fun st => (st, Ok (f st)).
Definition modify {S} (f : S -> S) : M S unit := fun st => (f st, Ok tt).
Definition liftResult {S A} (r : result A) : M S A := fun st => (st, r).

Declare Scope js_scope.
Delimit Scope js_scope with js.
Notation "x <- c ;; k" := (bind c (fun x => k))
  (at level 100, c at next level, right associativity) : js_scope.
Notation "c ;; k" := (bind c (fun _ => k))
  (at level 100, right associativity) : js_scope.
Local Open Scope js_scope.

(** [xs.forEach(f)] and [xs.map(f)] with an effectful callback. *)
Fixpoint forEach {S A} (f : A -> M S unit) (xs : list A) : M S unit :=
  match xs with
  | [] => ret tt
  | x :: xs' => f x ;; forEach f xs'
  end.

Fixpoint mapM {S A B} (f : A -> M S B) (xs : list A) : M S (list B) :=
  match xs with
  | [] => ret []
  | x :: xs' => y <- f x ;; ys <- mapM f xs' ;; ret (y :: ys)
  end.

(** A [Set] of strings in insertion order. *)
Definition setHas (x : string) (s : list string) : bool :=
  existsb (String.eqb x) s.
Definition setAdd (x : string) (s : list string) : list string :=
  if setHas x s then s else s ++ [x].

(* ===================================================================== *)
(** * ngraph.graph *)
(* ===================================================================== *)

Module Graph.

(** What is passed where the library expects a node id: the name of a
    node or, as [showRelated] does once, a graph object. *)
Inductive key : Type :=
| Name (id : string)
| GraphObject.

Record Link := { fromId : string; toId : string }.

(** The full graph, as the loader built it: its links in the order they
    were added. Every endpoint of a link is a node of the graph. *)
Definition t : Type := list Link.

Definition isName (k : key) (id : string) : bool :=
  match k with
  | Name id' => String.eqb id' id
  | GraphObject => false
  end.

(** [graph.hasLink(from, to)]: the link from [from] to [to], if any. The
    ids of a graph's nodes are strings, and an object is none of them: a
    key that is an object finds no link. (A version of the library that
    looks links up by a text made of both ids would turn the object into
    the text [[object Object]]; the graphs of this file have no node of
    that name.) *)
Definition hasLink (g : t) (from to : key) : bool :=
  existsb (fun l => isName from (fromId l) && isName to (toId l)) g.

(** The links of the node [id], in the order they were added: a link
    is attached to both its endpoints, once if they coincide. *)
Definition linksOf (g : t) (id : string) : list Link :=
  List.filter (fun l => String.eqb (fromId l) id || String.eqb (toId l) id) g.

(** The node at the other end of a link of [id]. *)
Definition otherEnd (id : string) (l : Link) : string :=
  if String.eqb (fromId l) id then toId l else fromId l.

(** [graph.forEachLinkedNode(id, visitor)] visits, for each link of
    [id], the node at its other end and the link: the list of the
    visitor's arguments. A node the graph does not have has no link. The
    library stops the visit when the visitor returns a truthy value; the
    visitors of this file return nothing. *)
Definition linkedNodes (g : t) (id : string) : list (string * Link) :=
  map (fun l => (otherEnd id l, l)) (linksOf g id).

Definition forEachLinkedNode {S} (g : t) (id : string)
    (visitor : string -> Link -> M S unit) : M S unit :=
  forEach (fun ol => visitor (fst ol) (snd ol)) (linkedNodes g id).

(** ** The graph [showRelated] builds *)

Inductive nodeData : Type :=
| IsRoot (isRoot : bool)
| IsFirstChild (isFirstChild : bool).

(** Nodes in the order they were created, each with its data
    ([None] for a node that [addLink] created), and links with their
    [isRootLevel] tag. *)
Record sub := {
  nodes : list (string * option nodeData);
  links : list (Link * bool)
}.

Definition createGraph : sub := {| nodes := []; links := [] |}.

Fixpoint findNode (ns : list (string * option nodeData)) (id : string)
  : option (option nodeData) :=
  match ns with
  | [] => None
  | (id', d) :: ns' => if String.eqb id' id then Some d else findNode ns' id
  end.

Definition getNode (g : sub) (id : string) : option (option nodeData) :=
  findNode (nodes g) id.

Fixpoint setData (ns : list (string * option nodeData)) (id : string)
    (d : option nodeData) : list (string * option nodeData) :=
  match ns with
  | [] => []
  | (id', d') :: ns' =>
      if String.eqb id' id then (id', d) :: ns' else (id', d') :: setData ns' id d
  end.

(** [graph.addNode(id, data)]: a new node, or new data for an old one. *)
Definition addNode (g : sub) (id : string) (d : option nodeData) : sub :=
  match getNode g id with
  | Some _ => {| nodes := setData (nodes g) id d; links := links g |}
  | None => {| nodes := nodes g ++ [(id, d)]; links := links g |}
  end.

Definition ensureNode (g : sub) (id : string) : sub :=
  match getNode g id with
  | Some _ => g
  | None => addNode g id None
  end.

Definition subHasLink (g : sub) (from to : string) : bool :=
  existsb (fun l => String.eqb (fromId (fst l)) from && String.eqb (toId (fst l)) to)
          (links g).

(** [graph.addLink(from, to, data)] creates the endpoints it misses. *)
Definition addLink (g : sub) (from to : string) (isRootLevel : bool) : sub :=
  let g1 := ensureNode (ensureNode g from) to in
  {| nodes := nodes g1;
     links := links g1 ++ [({| fromId := from; toId := to |}, isRootLevel)] |}.

End Graph.

(* ===================================================================== *)
(** * The transform parser *)
(* ===================================================================== *)

Record TransformParser := {
  isDirty : bool;
  tx : float;
  ty : float;
  transformStack : list (list float)
}.

Definition createTransformParser : TransformParser :=
  {| isDirty := false; tx := 0; ty := 0; transformStack := [] |}.

Definition finiteNumber (x : float) : bool := JS.isFinite x.

(** [record[i]] inside an addition: a missing entry is [undefined], which
    the addition turns into [NaN]. *)
Definition coefficient (record : list float) (i : nat) : float :=
  nth i record JS.NaN.

Definition parseTransform (str : string) : result (list float) :=
  match JS.matchMatrix str with
  | None => Throw (MalformedTransform str)
  | Some group =>
      let coefficients :=
        List.filter finiteNumber (map JS.parseFloat (JS.split "," group)) in
      if negb (length coefficients =? 6)%nat then Throw UnsupportedTransform
      else Ok coefficients
  end.

Definition pushTransform (transformStr : string) : M TransformParser unit :=
  modify (fun p => {| isDirty := true; tx := tx p; ty := ty p;
                      transformStack := transformStack p |}) ;;
  record <- liftResult (parseTransform transformStr) ;;
  modify (fun p => {| isDirty := isDirty p; tx := tx p; ty := ty p;
                      transformStack := transformStack p ++ [record] |}).

Definition popTransform : M TransformParser unit :=
  stack <- gets transformStack ;;
  if (length stack =? 0)%nat then throw UnbalancedTransformStack
  else modify (fun p => {| isDirty := true; tx := tx p; ty := ty p;
                           transformStack := removelast stack |}).

(** The offsets [updateTransform] accumulates, from [0] and in the order
    of the stack. *)
Definition sumE (stack : list (list float)) : float :=
  fold_left (fun acc record => (acc + coefficient record 4)%float) stack 0%float.
Definition sumF (stack : list (list float)) : float :=
  fold_left (fun acc record => (acc + coefficient record 5)%float) stack 0%float.

(** [tx += record[4]; ty += record[5]] *)
Definition accumulate (record : list float) (p : TransformParser) : TransformParser :=
  {| isDirty := isDirty p;
     tx := (tx p + coefficient record 4)%float;
     ty := (ty p + coefficient record 5)%float;
     transformStack := transformStack p |}.

Definition updateTransform : M TransformParser unit :=
  dirty <- gets isDirty ;;
  if negb dirty then ret tt
  else
    modify (fun p => {| isDirty := isDirty p; tx := 0; ty := 0;
                        transformStack := transformStack p |}) ;;
    stack <- gets transformStack ;;
    forEach (fun record => modify (accumulate record)) stack ;;
    modify (fun p => {| isDirty := false; tx := tx p; ty := ty p;
                        transformStack := transformStack p |}).

Definition transform (x y : float) : M TransformParser (float * float * float) :=
  updateTransform ;;
  p <- gets (fun p => p) ;;
  ret ((x + tx p)%float, (y - ty p)%float, 0%float).

(** The calls a client can make on a transform parser. *)
Inductive transformCall : Type :=
| PushTransform (transformStr : string)
| PopTransform
| Transform (x y : float).

Definition callTransform (c : transformCall) (p : TransformParser) : TransformParser :=
  match c with
  | PushTransform s => fst (pushTransform s p)
  | PopTransform => fst (popTransform p)
  | Transform x y => fst (transform x y p)
  end.

(** The parser after a sequence of calls on a fresh one; a call that
    throws leaves what it changed before the exception. *)
Definition afterCalls (cs : list transformCall) : TransformParser :=
  fold_left (fun p c => callTransform c p) cs createTransformParser.

(* ===================================================================== *)
(** * Colours *)
(* ===================================================================== *)

(** A colour is a number that holds an integer: it is modelled by that
    integer, and the bit operations convert it with [JS.wrap32]. *)

Definition hexColor (rgbArray : list float) : Z :=
  JS.bor (JS.bor (JS.bor (JS.shl (JS.ToInt32 (nth 0%nat rgbArray JS.NaN)) 24)
                         (JS.shl (JS.ToInt32 (nth 1%nat rgbArray JS.NaN)) 16))
                 (JS.shl (JS.ToInt32 (nth 2%nat rgbArray JS.NaN)) 8))
         255.

Definition rgbToHsl (r g b : float) : float * float * float :=
  let r := (r / 255)%float in
  let g := (g / 255)%float in
  let b := (b / 255)%float in
  let max := JS.Math_max (JS.Math_max r g) b in
  let min := JS.Math_min (JS.Math_min r g) b in
  let l := ((max + min) / 2)%float in
  if JS.strictEq max min then (0%float, 0%float, l)
  else
    let d := (max - min)%float in
    let s := if (0.5 <? l)%float then (d / (2 - max - min))%float
             else (d / (max + min))%float in
    let h :=
      if JS.strictEq max r then ((g - b) / d + (if (g <? b)%float then 6 else 0))%float
      else if JS.strictEq max g then ((b - r) / d + 2)%float
      else if JS.strictEq max b then ((r - g) / d + 4)%float
      else JS.NaN in
    ((h / 6)%float, s, l).

Definition hue2rgb (p q t : float) : float :=
  let t := if (t <? 0)%float then (t + 1)%float else t in
  let t := if (1 <? t)%float then (t - 1)%float else t in
  if (t <? 1 / 6)%float then (p + (q - p) * 6 * t)%float
  else if (t <? 1 / 2)%float then q
  else if (t <? 2 / 3)%float then (p + (q - p) * (2 / 3 - t) * 6)%float
  else p.

Definition hslToRgb (h s l : float) : float * float * float :=
  let '(r, g, b) :=
    if JS.strictEq s 0 then (l, l, l)
    else
      let q := if (l <? 0.5)%float then (l * (1 + s))%float
               else (l + s - l * s)%float in
      let p := (2 * l - q)%float in
      (hue2rgb p q (h + 1 / 3)%float, hue2rgb p q h, hue2rgb p q (h - 1 / 3)%float) in
  (JS.Math_round (r * 255)%float, JS.Math_round (g * 255)%float,
   JS.Math_round (b * 255)%float).

(** The literals [.8] and [1.4] of the source are the doubles nearest to
    them. *)
Definition lit_0_8 : float := 0x1.999999999999ap-1%float.
Definition lit_1_4 : float := 0x1.6666666666666p+0%float.

(** [getComplimentaryColor(color, lightningFactor = 1.4, alpha = 0xaa)]:
    an argument left out is [None]. *)
Definition getComplimentaryColor (color : Z) (lightningFactor : option float)
    (alpha : option Z) : Z :=
  let lightningFactor := default lit_1_4 lightningFactor in
  let alpha := default 170 alpha in
  let r := JS.band (JS.sar (JS.wrap32 color) 24) 255 in
  let g := JS.band (JS.sar (JS.wrap32 color) 16) 255 in
  let b := JS.band (JS.sar (JS.wrap32 color) 8) 255 in
  let '(h, s, l) := rgbToHsl (JS.ofZ r) (JS.ofZ g) (JS.ofZ b) in
  let lightningFactor := if (0.5 <? l)%float then lit_0_8 else lightningFactor in
  let '(r0, g0, b0) := hslToRgb h s (JS.Math_min 1 (l * lightningFactor)%float) in
  JS.bor (JS.bor (JS.bor (JS.shl (JS.ToInt32 r0) 24) (JS.shl (JS.ToInt32 g0) 16))
                 (JS.shl (JS.ToInt32 b0) 8))
         (JS.wrap32 alpha).

(** The derivation as the specification words it: the channels are the
    bytes of the colour, the lightness factor depends on the lightness
    alone, and the result is packed around the alpha [0xAA]. *)
Definition channel (color : Z) (shift : Z) : Z := (color / 2 ^ shift) mod 256.




(* ===================================================================== *)
(** * The renderer's state *)
(* ===================================================================== *)

(** An element of the streaming parser: its tag, its attributes and the
    element that encloses it. *)
#[warnings="-register-all"]
Inductive Element : Type := mkElement {
  tagName : string;
  attributes : gmap string string;
  parent : option Element
}.

Module ViewBox.
Record t := { left : float; top : float; width : float; height : float }.
End ViewBox.

Module UI.
(** The record [addNode] builds for a circle. *)
Record t := {
  componentId : string;
  position : float * float * float;
  color : Z;
  size : float;
  id : nat;
  name : string
}.
End UI.

(** What the file imports and does not define: the highlight colours of
    [./constants] and the two functions of [streaming-svg-parser]. The
    calls on the scene, the text and point collections, the searcher, the
    pointer handler and the bus change none of the variables below and
    are left out. *)
Class Collaborators := {
  PRIMARY_HIGHLIGHT_COLOR : Z;
  SECONDARY_HIGHLIGHT_COLOR : Z;
  getPointsFromPathData : option string -> list (float * float);
  getElementFillColor : Element -> list float
}.

(** The variables of the closure. *)
Record Renderer := {
  viewBox : option ViewBox.t;
  currentTransform : TransformParser;
  positions : list UI.t;
  nodeNameToUI : gmap string UI.t;
  nodesByComponent : gmap string (list string);
  complimentaryColor : gmap string Z;
  clusterColors : gmap string Z
}.

Definition createStreamingSVGRenderer : Renderer :=
  {| viewBox := None;
     currentTransform := createTransformParser;
     positions := [];
     nodeNameToUI := ∅;
     nodesByComponent := ∅;
     complimentaryColor := ∅;
     clusterColors := ∅ |}.

Definition setViewBox (v : ViewBox.t) (st : Renderer) : Renderer :=
  {| viewBox := Some v;
     currentTransform := currentTransform st;
     positions := positions st;
     nodeNameToUI := nodeNameToUI st;
     nodesByComponent := nodesByComponent st;
     complimentaryColor := complimentaryColor st;
     clusterColors := clusterColors st |}.

Definition setCurrentTransform (p : TransformParser) (st : Renderer) : Renderer :=
  {| viewBox := viewBox st;
     currentTransform := p;
     positions := positions st;
     nodeNameToUI := nodeNameToUI st;
     nodesByComponent := nodesByComponent st;
     complimentaryColor := complimentaryColor st;
     clusterColors := clusterColors st |}.

(** [neighbors = nodesByComponent.get(componentId)], created when
    missing, then [neighbors.add(nodeName)]. *)
Definition addToComponent (componentId nodeName : string) (st : Renderer) : Renderer :=
  {| viewBox := viewBox st;
     currentTransform := currentTransform st;
     positions := positions st;
     nodeNameToUI := nodeNameToUI st;
     nodesByComponent :=
       <[componentId := setAdd nodeName (default [] (nodesByComponent st !! componentId))]>
         (nodesByComponent st);
     complimentaryColor := complimentaryColor st;
     clusterColors := clusterColors st |}.

(** [nodeNameToUI.set(nodeName, ui); positions.push(ui)] *)
Definition registerUI (ui : UI.t) (st : Renderer) : Renderer :=
  {| viewBox := viewBox st;
     currentTransform := currentTransform st;
     positions := positions st ++ [ui];
     nodeNameToUI := <[UI.name ui := ui]> (nodeNameToUI st);
     nodesByComponent := nodesByComponent st;
     complimentaryColor := complimentaryColor st;
     clusterColors := clusterColors st |}.

Definition setClusterColors (clusterId : string) (color compl : Z) (st : Renderer)
  : Renderer :=
  {| viewBox := viewBox st;
     currentTransform := currentTransform st;
     positions := positions st;
     nodeNameToUI := nodeNameToUI st;
     nodesByComponent := nodesByComponent st;
     complimentaryColor := <[clusterId := compl]> (complimentaryColor st);
     clusterColors := <[clusterId := color]> (clusterColors st) |}.

(** A call on [currentTransform] from the closure. *)
Definition onTransform {A} (m : M TransformParser A) : M Renderer A :=
  fun st =>
    let '(p, r) := m (currentTransform st) in (setCurrentTransform p st, r).

(* ===================================================================== *)
(** * Attribute validators *)
(* ===================================================================== *)

Definition getNumericAttribute (el : Element) (name : string) : result float :=
  let value := JS.parseFloatOpt (attributes el !! name) in
  if negb (JS.isFinite value) then Throw (InvalidNumericAttribute (tagName el) name)
  else Ok value.

(** [getTextAttribute(el, name)]; reading [attributes] of a missing
    element is a [TypeError]. *)
Definition getTextAttribute (el : option Element) (name : string) : result string :=
  match el with
  | None => Throw (TypeError "attributes of undefined")
  | Some el =>
      match attributes el !! name with
      | Some v => Ok v
      | None => Ok ""
      end
  end.

(** [value || fallback] for an attribute: the empty string is falsy. *)
Definition orElse (value : option string) (fallback : string) : string :=
  match value with
  | Some (String c v) => String c v
  | _ => fallback
  end.

(** [if (value)] for an attribute. *)
Definition truthy (value : option string) : option string :=
  match value with
  | Some (String c v) => Some (String c v)
  | _ => None
  end.

(* ===================================================================== *)
(** * Element ingestion *)
(* ===================================================================== *)

Section Ingestion.
Context `{Collaborators}.

Definition transformY (y : float) : M Renderer float :=
  vb <- gets viewBox ;;
  match vb with
  | None => throw (TypeError "height of undefined")
  | Some v => ret (ViewBox.height v + ViewBox.top v - y)%float
  end.

Definition parseBorder (el : Element) : M Renderer (list (float * float) * Z) :=
  points <- mapM (fun xy =>
              y' <- transformY (snd xy) ;;
              p <- onTransform (transform (fst xy) y') ;;
              ret (fst (fst p), snd (fst p)))
            (getPointsFromPathData (attributes el !! "d")) ;;
  ret (points, hexColor (getElementFillColor el)).

Definition addBorder (el : Element) : M Renderer unit :=
  pc <- parseBorder el ;;
  match attributes el !! "id" with
  | None => throw (TypeError "substr of undefined")
  | Some id =>
      let clusterId := JS.substr1 id in
      modify (setClusterColors clusterId (snd pc)
                (getComplimentaryColor (snd pc) None None))
  end.

Definition stripUnderscore (nodeName : string) : string :=
  match nodeName with
  | String "_" rest => rest
  | _ => nodeName
  end.

Definition addNode (el : Element) : M Renderer unit :=
  x <- liftResult (getNumericAttribute el "cx") ;;
  cy <- liftResult (getNumericAttribute el "cy") ;;
  y <- transformY cy ;;
  r <- liftResult (getNumericAttribute el "r") ;;
  nodeName <- liftResult (getTextAttribute (Some el) "id") ;;
  let nodeName := stripUnderscore nodeName in
  known <- gets (fun st => nodeNameToUI st !! nodeName) ;;
  match known with
  | Some _ => throw (DuplicateNodeName nodeName)
  | None =>
      componentId <- liftResult (getTextAttribute (parent el) "id") ;;
      modify (addToComponent componentId nodeName) ;;
      position <- onTransform (transform x y) ;;
      count <- gets (fun st => length (positions st)) ;;
      modify (registerUI {| UI.componentId := componentId;
                            UI.position := position;
                            UI.color := 0xdcdcdcff;
                            UI.size := (r * 2)%float;
                            UI.id := count;
                            UI.name := nodeName |})
  end.

(** The array [viewBoxArr] of the [svg] branch. *)
Definition viewBoxArr (element : Element) : list float :=
  List.filter finiteNumber
    (map JS.parseFloat
         (JS.split " " (orElse (attributes element !! "viewBox") "0 0 1024 1024"))).

Definition handleElementStart (element : Element) : M Renderer unit :=
  if String.eqb (tagName element) "svg" then
    match viewBoxArr element with
    | [l; t; w; h] =>
        modify (setViewBox {| ViewBox.left := l; ViewBox.top := t;
                              ViewBox.width := w; ViewBox.height := h |})
    | _ => throw (InvalidViewBox (attributes element !! "viewBox"))
    end
  else if String.eqb (tagName element) "path" then addBorder element
  else if String.eqb (tagName element) "circle" then addNode element
  else
    match truthy (attributes element !! "transform") with
    | Some transform => onTransform (pushTransform transform)
    | None => ret tt
    end.

Definition handleElementEnd (element : Element) : M Renderer unit :=
  match truthy (attributes element !! "transform") with
  | Some _ => onTransform popTransform
  | None => ret tt
  end.

(** The events of the loader. *)
Inductive event : Type :=
| ElementStart (element : Element)
| ElementEnd (element : Element).

Definition handle (ev : event) : M Renderer unit :=
  match ev with
  | ElementStart el => handleElementStart el
  | ElementEnd el => handleElementEnd el
  end.

(** The state after the handlers ran on a sequence of events. A
    handler that throws leaves the state it had reached; what the
    loader delivers afterwards, if anything, is handled from there. *)
Definition ingest (evs : list event) (st : Renderer) : Renderer :=
  fold_left (fun st ev => fst (handle ev st)) evs st.

Definition reachable (st : Renderer) : Prop :=
  exists evs, st = ingest evs createStreamingSVGRenderer.

End Ingestion.

(* ===================================================================== *)
(** * Highlights *)
(* ===================================================================== *)

Module Highlight.

(** [{...nodeNameToUI.get(name)}] with [color] set afterwards: a copy of
    the record with the new colour, or, when the name is unknown (the
    spread of [undefined] is the empty object), an object that has the
    colour alone. *)
Inductive node : Type :=
| Copy (ui : UI.t)
| ColorOnly (color : Z).


(** A highlighted link; [color] is [None] when the cluster has no
    complementary colour yet and the link is not first-level. *)
Record link := {
  from : float * float * float;
  to : float * float * float;
  color : option Z;
  isFirstLevel : bool
}.

(** The local variables of [getHighlightedLinks]. *)
Record locals := { idx : Z; linkUIs : list link }.

End Highlight.

Section Highlights.
Context `{Collaborators}.


Definition maxLinks : Z := 10.

(** [nodeNameToUI.get(name).position] *)
Definition positionOf {S} (st : Renderer) (name : string)
  : M S (float * float * float) :=
  match nodeNameToUI st !! name with
  | Some ui => ret (UI.position ui)
  | None => throw (TypeError "position of undefined")
  end.

(** The visitor of the inner loop of [getHighlightedLinks]. *)
Definition visitLink (st : Renderer) (ui : UI.t) (neighbors : list string)
    (secondaryLinkColor : option Z) (neighborId other : string)
  : M Highlight.locals unit :=
  if negb (setHas other neighbors) then ret tt
  else
    let isFirstLevel :=
      String.eqb neighborId (UI.name ui) || String.eqb other (UI.name ui) in
    idx <- gets Highlight.idx ;;
    if (maxLinks <? idx) && negb isFirstLevel then ret tt
    else
      from <- positionOf st neighborId ;;
      to <- positionOf st other ;;
      modify (fun v =>
        {| Highlight.idx := Highlight.idx v + 1;
           Highlight.linkUIs :=
             Highlight.linkUIs v ++
             [{| Highlight.from := from;
                 Highlight.to := to;
                 Highlight.color :=
                   if isFirstLevel then Some 0xffffffff else secondaryLinkColor;
                 Highlight.isFirstLevel := isFirstLevel |}] |}).

(** The body of [neighbors.forEach]: the links emitted for one node of
    the cluster. *)
Definition visitNeighbor (st : Renderer) (graph : Graph.t) (ui : UI.t)
    (neighbors : list string) (secondaryLinkColor : option Z) (neighborId : string)
  : M Highlight.locals unit :=
  modify (fun v => {| Highlight.idx := 0; Highlight.linkUIs := Highlight.linkUIs v |}) ;;
  Graph.forEachLinkedNode graph neighborId (fun other _ =>
    visitLink st ui neighbors secondaryLinkColor neighborId other).

Definition getHighlightedLinks (st : Renderer) (graph : option Graph.t) (ui : UI.t)
  : result (list Highlight.link) :=
  match graph with
  | None => Ok []
  | Some graph =>
      match nodesByComponent st !! UI.componentId ui with
      | None => Throw (TypeError "forEach of undefined")
      | Some neighbors =>
          let secondaryLinkColor := complimentaryColor st !! UI.componentId ui in
          match forEach (visitNeighbor st graph ui neighbors secondaryLinkColor)
                        neighbors
                        {| Highlight.idx := 0; Highlight.linkUIs := [] |} with
          | (v, Ok _) => Ok (Highlight.linkUIs v)
          | (_, Throw e) => Throw e
          end
      end
  end.

(** The links [getHighlightedLinks] emits while it visits the links of
    [neighborId], taken alone. *)
Definition linksFrom (st : Renderer) (graph : Graph.t) (ui : UI.t)
    (neighbors : list string) (neighborId : string) : result (list Highlight.link) :=
  match visitNeighbor st graph ui neighbors
          (complimentaryColor st !! UI.componentId ui) neighborId
          {| Highlight.idx := 0; Highlight.linkUIs := [] |} with
  | (v, Ok _) => Ok (Highlight.linkUIs v)
  | (_, Throw e) => Throw e
  end.

End Highlights.

(* ===================================================================== *)
(** * The related subgraph *)
(* ===================================================================== *)

(** [addNeighbors(node, neighborsSet)] *)
Definition addNeighbors (graph : Graph.t) (node : string) : M (list string) unit :=
  Graph.forEachLinkedNode graph node (fun otherNode _ => modify (setAdd otherNode)).

(** The set [subgraphNodes] once both rounds of [addNeighbors] ran: the
    second round runs over a copy of the set made before it starts. *)
Definition subgraphNodes (graph : Graph.t) (subreddit : string) : list string :=
  let s0 := fst (addNeighbors graph subreddit []) in
  fst (forEach (addNeighbors graph) s0 s0).

(** The body of [subgraphNodes.forEach] in [showRelated]. As in the
    source, the second test of [isFirstChild] passes the graph under
    construction where the root's name is expected. [hasLink] answers
    with a link or with nothing; the tag is modelled by its truth value. *)
Definition relateNode (graph : Graph.t) (subreddit : string) (members : list string)
    (node : string) : M Graph.sub unit :=
  addedNode <- gets (fun subgraph => Graph.getNode subgraph node) ;;
  match addedNode with
  | Some (Some _) => ret tt
  | _ =>
      let isFirstChild :=
        Graph.hasLink graph (Graph.Name node) (Graph.Name subreddit)
        || Graph.hasLink graph Graph.GraphObject (Graph.Name node) in
      modify (fun subgraph =>
        Graph.addNode subgraph node (Some (Graph.IsFirstChild isFirstChild)))
  end ;;
  Graph.forEachLinkedNode graph node (fun otherNode link =>
    if negb (setHas otherNode members) then ret tt
    else
      present <- gets (fun subgraph =>
        Graph.subHasLink subgraph (Graph.fromId link) (Graph.toId link)) ;;
      if present then ret tt
      else
        let isRootLevel :=
          String.eqb (Graph.fromId link) subreddit || String.eqb (Graph.toId link) subreddit in
        modify (fun subgraph =>
          Graph.addLink subgraph (Graph.fromId link) (Graph.toId link) isRootLevel)).

(** The graph [showRelated(subreddit)] hands to the subgraph visualizer;
    [graph] is [loader.getGraph()], [None] when there is none. *)
Definition showRelated (graph : option Graph.t) (subreddit : string) : result Graph.sub :=
  let subgraph := Graph.addNode Graph.createGraph subreddit (Some (Graph.IsRoot true)) in
  match graph with
  | None => Throw (TypeError "forEachLinkedNode of undefined")
  | Some graph =>
      let members := subgraphNodes graph subreddit in
      match forEach (relateNode graph subreddit members) members subgraph with
      | (subgraph, Ok _) => Ok subgraph
      | (_, Throw e) => Throw e
      end
  end.

(** The tag [isFirstChild] of a node of the subgraph. *)
Definition isFirstChildOf (subgraph : Graph.sub) (node : string) : option bool :=
  match Graph.getNode subgraph node with
  | Some (Some (Graph.IsFirstChild b)) => Some b
  | _ => None
  end.

(* ===================================================================== *)
(** * Sample documents *)
(* ===================================================================== *)

(** Collaborators for the examples: two highlight colours, no path data,
    a grey fill. *)
Definition sampleCollaborators : Collaborators :=
  {| PRIMARY_HIGHLIGHT_COLOR := 0xffffffff;
     SECONDARY_HIGHLIGHT_COLOR := 0xbbbbbbff;
     getPointsFromPathData := fun _ => [];
     getElementFillColor := fun _ => [128%float; 128%float; 128%float] |}.

(** [<svg viewBox="...">], or [<svg>] without the attribute. *)
Definition svgElement (viewBoxAttr : option string) : Element :=
  {| tagName := "svg";
     attributes := match viewBoxAttr with
                   | Some v => {["viewBox" := v]}
                   | None => ∅
                   end;
     parent := None |}.

(** [<g id="...">] inside the root element. *)
Definition groupElement (id : string) : Element :=
  {| tagName := "g"; attributes := {["id" := id]}; parent := Some (svgElement None) |}.

(** [<circle id=... cx=... cy=... r=...>] inside the group [group]. *)
Definition circleElement (group id cx cy r : string) : Element :=
  {| tagName := "circle";
     attributes := <["id" := id]> (<["cx" := cx]> (<["cy" := cy]> {["r" := r]}));
     parent := Some (groupElement group) |}.


(** The renderer after [<svg>], then the circles [_a] and [b] of the
    group [c]. *)
Definition namesSample : Renderer :=
  ingest (H := sampleCollaborators)
         [ElementStart (svgElement None);
          ElementStart (circleElement "c" "_a" "1" "2" "3");
          ElementStart (circleElement "c" "b" "4" "5" "6")]
         createStreamingSVGRenderer.

(** A record of [namesSample] and two references that no document
    defines: [ghost] has an unknown name and an unknown component,
    [stranger] an unknown name in the component [c]. *)
Definition sampleA : UI.t :=
  {| UI.componentId := "c"; UI.position := (1, 1022, 0)%float; UI.color := 0xdcdcdcff;
     UI.size := 6; UI.id := 0; UI.name := "a" |}.

Definition link (a b : string) : Graph.Link := {| Graph.fromId := a; Graph.toId := b |}.

(** A cluster [c] of fourteen nodes with its border: the focused node
    [u], the node [n], and twelve nodes that [n] links to. *)
Definition pathElement (id d : string) : Element :=
  {| tagName := "path"; attributes := <["id" := id]> {["d" := d]};
     parent := Some (svgElement None) |}.

Definition capSample : Renderer :=
  ingest (H := sampleCollaborators)
       ([ElementStart (svgElement None);
         ElementStart (pathElement "_c" "M0 0L20 0L20 20Z")] ++
        [
        ElementStart (circleElement "c" "u" "1" "10" "1");
        ElementStart (circleElement "c" "n" "2" "10" "1");
        ElementStart (circleElement "c" "m01" "3" "10" "1");
        ElementStart (circleElement "c" "m02" "4" "10" "1");
        ElementStart (circleElement "c" "m03" "5" "10" "1");
        ElementStart (circleElement "c" "m04" "6" "10" "1");
        ElementStart (circleElement "c" "m05" "7" "10" "1");
        ElementStart (circleElement "c" "m06" "8" "10" "1");
        ElementStart (circleElement "c" "m07" "9" "10" "1");
        ElementStart (circleElement "c" "m08" "10" "10" "1");
        ElementStart (circleElement "c" "m09" "11" "10" "1");
        ElementStart (circleElement "c" "m10" "12" "10" "1");
        ElementStart (circleElement "c" "m11" "13" "10" "1");
        ElementStart (circleElement "c" "m12" "14" "10" "1")])
       createStreamingSVGRenderer.

Definition capGraph : Graph.t :=
  map (link "n")
      ["m01"; "m02"; "m03"; "m04"; "m05"; "m06"; "m07"; "m08"; "m09"; "m10"; "m11"; "m12"].

Definition capFocus : UI.t :=
  {| UI.componentId := "c"; UI.position := (1, 1014, 0)%float; UI.color := 0xdcdcdcff;
     UI.size := 2; UI.id := 0; UI.name := "u" |}.

(** The links of [ls] that start at the position [from] and are not
    first-level. *)
Definition secondaryFrom (from : float * float * float) (ls : list Highlight.link)
  : list Highlight.link :=
  List.filter (fun l =>
      negb (Highlight.isFirstLevel l)
      && JS.objectIs (fst (fst (Highlight.from l))) (fst (fst from))
      && JS.objectIs (snd (fst (Highlight.from l))) (snd (fst from))
      && JS.objectIs (snd (Highlight.from l)) (snd from)) ls.

(** The integers from [lo] up, [count] of them. *)
Definition integersFrom (lo : Z) (count : nat) : list Z :=
  map (fun i => lo + Z.of_nat i) (seq 0 count).

(* ===================================================================== *)
(** * Invariants *)
(* ===================================================================== *)

(** The name [addNode] gives to a circle: its [id] attribute ([""] when
    absent) without one leading underscore. *)
Definition nodeNameOf (el : Element) : string :=
  stripUnderscore (default "" (attributes el !! "id")).

(** The three indices of the nodes agree: the records of [positions] have
    distinct names, [nodeNameToUI] maps each name to its record and holds
    nothing else, and each record's name is a member of its component. *)
Record indexed (st : Renderer) : Prop := {
  names_unique : NoDup (UI.name <$> positions st);
  positions_registered :
    forall ui, ui ∈ positions st -> nodeNameToUI st !! UI.name ui = Some ui;
  registered_positions :
    forall n ui, nodeNameToUI st !! n = Some ui -> ui ∈ positions st;
  component_known :
    forall ui, ui ∈ positions st ->
      exists members, nodesByComponent st !! UI.componentId ui = Some members
                      /\ setHas (UI.name ui) members = true
}.

(** Two states with the same node indices. *)
Definition sameIndex (st st' : Renderer) : Prop :=
  positions st' = positions st
  /\ nodeNameToUI st' = nodeNameToUI st
  /\ nodesByComponent st' = nodesByComponent st.

(** A computation that leaves the node indices as they are. *)
Definition frames {A} (m : M Renderer A) : Prop :=
  forall st, sameIndex st (fst (m st)).

(** The node [node] of the subgraph carries the data [d]. *)
Definition settled (subgraph : Graph.sub) (node : string) (d : Graph.nodeData) : Prop :=
  Graph.getNode subgraph node = Some (Some d).

(** The root carries the root's data, and a node other than the root
    carries no data or the tag that tells whether the full graph links it to
    the root. *)
Definition tagged (graph : Graph.t) (subreddit : string) (g : Graph.sub) : Prop :=
  settled g subreddit (Graph.IsRoot true)
  /\ forall n d, settled g n d -> n <> subreddit ->
       d = Graph.IsFirstChild (Graph.hasLink graph (Graph.Name n) (Graph.Name subreddit)).



(** The cached offsets are those of the stack unless the parser is
    dirty. *)
Definition cacheOk (p : TransformParser) : Prop :=
  isDirty p = false ->
  tx p = sumE (transformStack p) /\ ty p = sumF (transformStack p).

(* ===================================================================== *)
(** * The progress message and further notions *)
(* ===================================================================== *)

(** [getLoadedSubreddits()]: the message of the progress report;
    [formatNumber] is the function of [./utils], which the file imports. *)
Definition getLoadedSubreddits (formatNumber : nat -> string) (st : Renderer) : string :=
  ("Loaded " ++ formatNumber (size (nodeNameToUI st)) ++ " subreddits...")%string.

(** A computation that keeps the property [I] of the state, whether it
    returns or throws. *)
Definition preserves {A} (I : Renderer -> Prop) (m : M Renderer A) : Prop :=
  forall st, I st -> I (fst (m st)).

(** The stack of the renderer's transform parser. *)
Definition stackOf (st : Renderer) : list (list float) :=
  transformStack (currentTransform st).

(** The elements [handleElementStart] draws: it never pushes their
    [transform] attribute. *)
Definition isDrawn (el : Element) : bool :=
  String.eqb (tagName el) "svg" || String.eqb (tagName el) "path"
  || String.eqb (tagName el) "circle".

Definition startsSvg (ev : event) : bool :=
  match ev with
  | ElementStart el => String.eqb (tagName el) "svg"
  | ElementEnd _ => false
  end.

(** Further facts the handlers keep: a record's [id] is its place in
    [positions], a name is the key of its record, the map has as many
    entries as there are records, the members of a component are distinct
    and are the names of records of that component, and the cached offsets
    of the transform parser are up to date. *)
Record consistent (st : Renderer) : Prop := {
  ids_are_places : forall i ui, positions st !! i = Some ui -> UI.id ui = i;
  names_are_keys : forall n ui, nodeNameToUI st !! n = Some ui -> UI.name ui = n;
  one_entry_per_record : size (nodeNameToUI st) = length (positions st);
  members_distinct :
    forall c members, nodesByComponent st !! c = Some members -> NoDup members;
  members_registered :
    forall c members n,
      nodesByComponent st !! c = Some members -> n ∈ members ->
      exists ui, nodeNameToUI st !! n = Some ui /\ UI.componentId ui = c;
  cache_ok : cacheOk (currentTransform st)
}.

(** An element with a [transform] attribute and no other. *)
Definition transformedElement (tag transformAttr : string) : Element :=
  {| tagName := tag; attributes := {["transform" := transformAttr]};
     parent := Some (svgElement None) |}.

(** The renderer after [<svg>] and the start of
    [<g transform="matrix(1,0,0,1,10,20)">]. *)
Definition nestedSample : Renderer :=
  ingest (H := sampleCollaborators)
         [ElementStart (svgElement None);
          ElementStart (transformedElement "g" "matrix(1,0,0,1,10,20)")]
         createStreamingSVGRenderer.

(** What a highlighted link is made of: two members [a] and [b] of the
    cluster that a link of the graph joins, their positions, the flag that
    tells whether one of them is the focused node, and the colour that
    goes with the flag. *)
Definition linkBetween (st : Renderer) (ui : UI.t) (neighbors : list string)
    (secondaryLinkColor : option Z) (l : Highlight.link) (a b : string) : Prop :=
  setHas b neighbors = true
  /\ exists ua ub,
       nodeNameToUI st !! a = Some ua
       /\ nodeNameToUI st !! b = Some ub
       /\ Highlight.from l = UI.position ua
       /\ Highlight.to l = UI.position ub
       /\ Highlight.isFirstLevel l
          = (String.eqb a (UI.name ui) || String.eqb b (UI.name ui))
       /\ Highlight.color l
          = if Highlight.isFirstLevel l then Some 4294967295 else secondaryLinkColor.

(** Two nodes that a link of the graph joins, in either direction. *)
Definition linked (graph : Graph.t) (a b : string) : Prop :=
  exists l, In l graph
            /\ ((Graph.fromId l = a /\ Graph.toId l = b)
                \/ (Graph.toId l = a /\ Graph.fromId l = b)).

(** The tag [isRootLevel] of a link in the subgraph of [subreddit]. *)
Definition linkTag (subreddit : string) (l : Graph.Link) : bool :=
  String.eqb (Graph.fromId l) subreddit || String.eqb (Graph.toId l) subreddit.

(** What [showRelated] keeps while it builds the subgraph: its links are
    links of the full graph between members of the closure, each with its
    tag and none twice, and its nodes are the root or members. *)
Record related (graph : Graph.t) (subreddit : string) (members : list string)
    (g : Graph.sub) : Prop := {
  links_from_graph :
    forall l t, In (l, t) (Graph.links g) ->
      In l graph /\ setHas (Graph.fromId l) members = true
      /\ setHas (Graph.toId l) members = true /\ t = linkTag subreddit l;
  links_distinct : List.NoDup (map fst (Graph.links g));
  nodes_in_closure :
    forall n, is_Some (Graph.getNode g n) -> n = subreddit \/ setHas n members = true
}.

(* ===================================================================== *)
(** * The primitives on samples *)
(* ===================================================================== *)

Example parseFloat_integers :
  JS.parseFloat "0" = 0%float /\ JS.parseFloat "1024" = 1024%float
  /\ JS.parseFloat "-20" = (-20)%float /\ JS.parseFloat "-0" = (-0)%float.
Proof. vm_compute. repeat split; reflexivity. Qed.

Example parseFloat_fractions :
  JS.parseFloat ".8" = lit_0_8 /\ JS.parseFloat "1.4" = lit_1_4
  /\ JS.parseFloat "0.1" = 0x1.999999999999ap-4%float
  /\ JS.parseFloat "12.5e-1" = 1.25%float.
Proof. vm_compute. repeat split; reflexivity. Qed.

Example parseFloat_prefix :
  JS.parseFloat "  -12.5e2px" = (-1250)%float /\ JS.parseFloat "1e" = 1%float
  /\ JS.parseFloat "7 8" = 7%float.
Proof. vm_compute. repeat split; reflexivity. Qed.

Example parseFloat_not_a_number :
  JS.parseFloat "" = JS.NaN /\ JS.parseFloat "." = JS.NaN /\ JS.parseFloat "auto" = JS.NaN.
Proof. vm_compute. repeat split; reflexivity. Qed.

Example parseFloat_rounds_to_nearest_even :
  JS.parseFloat "9007199254740993" = 9007199254740992%float
  /\ JS.parseFloat "1e309" = infinity
  /\ JS.parseFloat "5e-324" = 0x1p-1074%float
  /\ JS.parseFloat "2e-324" = 0%float.
Proof. vm_compute. repeat split; reflexivity. Qed.

Example split_on_spaces :
  JS.split " " "0 0 1024 1024" = ["0"; "0"; "1024"; "1024"]
  /\ JS.split " " "0 0  1024" = ["0"; "0"; ""; "1024"]
  /\ JS.split " " "" = [""].
Proof. vm_compute. repeat split; reflexivity. Qed.

Example matchMatrix_samples :
  JS.matchMatrix "matrix(1,0,0,1,10,20)" = Some "1,0,0,1,10,20"
  /\ JS.matchMatrix "Matrix(1 0 0 1 10 20)" = Some "1 0 0 1 10 20"
  /\ JS.matchMatrix "translate(3)" = None
  /\ JS.matchMatrix "matrix()" = None
  /\ JS.matchMatrix "matrix(1,2) " = None.
Proof. vm_compute. repeat split; reflexivity. Qed.

Example Math_round_samples :
  JS.Math_round 2.5 = 3%float /\ JS.Math_round (-2.5) = (-2)%float
  /\ JS.Math_round 0x1.fffffffffffffp-2 = 0%float
  /\ JS.Math_round (-0.25) = (-0)%float.
Proof. vm_compute. repeat split; reflexivity. Qed.

Example ToInt32_samples :
  JS.ToInt32 4294967295 = -1 /\ JS.ToInt32 (-1.5) = -1 /\ JS.ToInt32 JS.NaN = 0
  /\ JS.shl 255 24 = -16777216.
Proof. vm_compute. repeat split; reflexivity. Qed.

(** The colour of the boundaries, [0x124182a4], has the complementary
    colour [0x195bb6aa]. *)
Example getComplimentaryColor_sample :
  getComplimentaryColor 0x124182a4 None None = 0x195bb6aa.
Proof. vm_compute. reflexivity. Qed.

(* ===================================================================== *)
(** * Properties of the graph *)
(* ===================================================================== *)

(** The links [forEachLinkedNode] visits for a node are the links of the
    graph that start or end at it. *)
Lemma linksOf_spec (g : Graph.t) (id : string) (l : Graph.Link) :
  In l (Graph.linksOf g id) <-> In l g /\ (Graph.fromId l = id \/ Graph.toId l = id).
Proof.
  unfold Graph.linksOf. rewrite filter_In, orb_true_iff, !String.eqb_eq. reflexivity.
Qed.

Lemma otherEnd_spec (id : string) (l : Graph.Link) :
  Graph.fromId l = id \/ Graph.toId l = id ->
  (Graph.fromId l = id /\ Graph.otherEnd id l = Graph.toId l)
  \/ (Graph.toId l = id /\ Graph.otherEnd id l = Graph.fromId l).
Proof.
  unfold Graph.otherEnd. destruct (String.eqb_spec (Graph.fromId l) id) as [Heq|Hne].
  - intros _. left. split; [exact Heq|reflexivity].
  - intros [Heq|Heq]; [contradiction|]. right. split; [exact Heq|reflexivity].
Qed.

(* ===================================================================== *)
(** * Properties of the transform parser *)
(* ===================================================================== *)

Section TransformParserFacts.

Lemma forEach_modify {S A} (f : A -> S -> S) (xs : list A) (st : S) :
  forEach (fun x s => (f x s, Ok tt)) xs st = (fold_left (fun s x => f x s) xs st, Ok tt).
Proof.
  revert st. induction xs as [|x xs IH]; intros st; simpl; [reflexivity|].
  unfold bind. apply IH.
Qed.

Lemma accumulate_fold (stack : list (list float)) (p : TransformParser) :
  fold_left (fun s r => accumulate r s) stack p =
  {| isDirty := isDirty p;
     tx := fold_left (fun acc r => (acc + coefficient r 4)%float) stack (tx p);
     ty := fold_left (fun acc r => (acc + coefficient r 5)%float) stack (ty p);
     transformStack := transformStack p |}.
Proof.
  revert p. induction stack as [|r stack IH]; intros p; simpl.
  - destruct p; reflexivity.
  - rewrite IH. reflexivity.
Qed.

Lemma updateTransform_spec (p : TransformParser) :
  cacheOk p ->
  updateTransform p =
  ({| isDirty := false; tx := sumE (transformStack p); ty := sumF (transformStack p);
      transformStack := transformStack p |}, Ok tt).
Proof.
  intros Hc. unfold updateTransform, bind, gets.
  destruct (isDirty p) eqn:Hd; simpl.
  - unfold modify. rewrite forEach_modify, accumulate_fold. reflexivity.
  - destruct (Hc Hd) as [Hx Hy]. unfold ret. rewrite <- Hx, <- Hy, <- Hd.
    destruct p; reflexivity.
Qed.

Lemma transform_spec (p : TransformParser) (x y : float) :
  cacheOk p ->
  transform x y p =
  ({| isDirty := false; tx := sumE (transformStack p); ty := sumF (transformStack p);
      transformStack := transformStack p |},
   Ok ((x + sumE (transformStack p))%float, (y - sumF (transformStack p))%float, 0%float)).
Proof.
  intros Hc. unfold transform, bind. rewrite (updateTransform_spec p Hc). reflexivity.
Qed.

Lemma cacheOk_create : cacheOk createTransformParser.
Proof. intros _. split; reflexivity. Qed.

Lemma cacheOk_push (s : string) (p : TransformParser) :
  cacheOk (fst (pushTransform s p)).
Proof.
  unfold pushTransform, bind, modify, liftResult. simpl.
  destruct (parseTransform s); simpl; intros Hd; discriminate Hd.
Qed.

Lemma cacheOk_pop (p : TransformParser) :
  cacheOk p -> cacheOk (fst (popTransform p)).
Proof.
  intros Hc. unfold popTransform, bind, gets, modify, throw.
  destruct (length (transformStack p) =? 0)%nat; simpl; [exact Hc|].
  intros Hd; discriminate Hd.
Qed.

Lemma cacheOk_transform (x y : float) (p : TransformParser) :
  cacheOk p -> cacheOk (fst (transform x y p)).
Proof.
  intros Hc. rewrite (transform_spec p x y Hc). simpl. intros _. split; reflexivity.
Qed.

Lemma cacheOk_call (c : transformCall) (p : TransformParser) :
  cacheOk p -> cacheOk (callTransform c p).
Proof.
  intros Hc. destruct c; simpl.
  - apply cacheOk_push.
  - apply cacheOk_pop, Hc.
  - apply cacheOk_transform, Hc.
Qed.

Lemma cacheOk_fold (cs : list transformCall) (p : TransformParser) :
  cacheOk p -> cacheOk (fold_left (fun p c => callTransform c p) cs p).
Proof.
  revert p. induction cs as [|c cs IH]; intros p Hc; simpl; [exact Hc|].
  apply IH, cacheOk_call, Hc.
Qed.

Lemma cacheOk_afterCalls (cs : list transformCall) : cacheOk (afterCalls cs).
Proof. apply cacheOk_fold, cacheOk_create. Qed.

(** The stack itself: a push that parses appends its record, a push that
    does not parse and a resolution leave the stack alone, and a pop drops
    the last record. *)
Lemma pushTransform_stack (s : string) (p : TransformParser) :
  transformStack (fst (pushTransform s p)) =
  match parseTransform s with
  | Ok record => transformStack p ++ [record]
  | Throw _ => transformStack p
  end.
Proof.
  unfold pushTransform, bind, modify, liftResult. simpl.
  destruct (parseTransform s); reflexivity.
Qed.

Lemma popTransform_stack (p : TransformParser) :
  transformStack (fst (popTransform p)) = removelast (transformStack p).
Proof.
  unfold popTransform, bind, gets, modify, throw.
  destruct (transformStack p) as [|r stack] eqn:E; simpl; [exact E|reflexivity].
Qed.

Lemma transform_stack (x y : float) (p : TransformParser) :
  cacheOk p -> transformStack (fst (transform x y p)) = transformStack p.
Proof. intros Hc. rewrite (transform_spec p x y Hc). reflexivity. Qed.

End TransformParserFacts.

(** C4. Whatever calls were made on the transform parser before (pushes,
    pops and earlier resolutions, in any order), [transform(x, y)] returns
    [(x + Σe, y − Σf, 0)], where Σe and Σf add up, from [0] and in stack
    order, the fifth and the sixth coefficient of the transforms that are
    on the stack; after [matrix(1,0,0,1,10,20)] alone was pushed,
    [transform(0, 0)] is [(10, -20, 0)]. *)
Theorem transform_adds_stack_offsets :
  (forall (cs : list transformCall) (x y : float),
     snd (transform x y (afterCalls cs)) =
     Ok ((x + sumE (transformStack (afterCalls cs)))%float,
         (y - sumF (transformStack (afterCalls cs)))%float,
         0%float))
  /\ snd (transform 0 0 (afterCalls [PushTransform "matrix(1,0,0,1,10,20)"])) =
     Ok (10%float, (-20)%float, 0%float).
Proof.
  split.
  - intros cs x y. rewrite (transform_spec _ x y (cacheOk_afterCalls cs)). reflexivity.
  - vm_compute. reflexivity.
Qed.

(** Popping twice after one push throws on the second pop. *)
Example pop_twice_after_one_push :
  snd (popTransform (afterCalls [PushTransform "matrix(1,0,0,1,10,20)"; PopTransform]))
  = Throw UnbalancedTransformStack.
Proof. vm_compute. reflexivity. Qed.

(** ** Facts on numbers *)

Section NumberFacts.

Lemma add_zero_r (x : float) : x <> (-0)%float -> (x + 0)%float = x.
Proof.
  intros Hx. apply Prim2SF_inj. rewrite add_spec.
  change (Prim2SF 0) with (S754_zero false). unfold SF64add, SFadd.
  destruct (Prim2SF x) as [s | s | | s m e] eqn:E; try reflexivity.
  destruct s; [|reflexivity].
  exfalso. apply Hx. rewrite <- (SF2Prim_Prim2SF x), E. reflexivity.
Qed.

Lemma sub_zero_r (y : float) : (y - 0)%float = y.
Proof.
  apply Prim2SF_inj. rewrite sub_spec.
  change (Prim2SF 0) with (S754_zero false). unfold SF64sub, SFsub.
  destruct (Prim2SF y) as [s | s | | s m e]; try reflexivity.
  destruct s; reflexivity.
Qed.

Lemma finite_not_nan (x : float) : JS.isFinite x = true -> is_nan x = false.
Proof.
  unfold JS.isFinite, is_finite. destruct (is_nan x); [discriminate|reflexivity].
Qed.

Lemma strictEq_refl (x : float) : is_nan x = false -> JS.strictEq x x = true.
Proof.
  unfold JS.strictEq, is_nan. destruct (x =? x)%float; [reflexivity|discriminate].
Qed.

End NumberFacts.

(** C10. While the stack of the transform parser is empty (nothing was
    pushed, or every push was undone by a pop), [transform(x, y)] is
    [(x, y, 0)] for finite [x] and [y]: the second and third components
    are [y] and [0], and the first one is [x + 0], which [===] does not
    tell from [x]; it is the very same double unless [x] is [-0], which
    comes back as [+0]. *)
Theorem transform_identity_on_empty_stack (cs : list transformCall) (x y : float) :
  transformStack (afterCalls cs) = [] ->
  JS.isFinite x = true -> JS.isFinite y = true ->
  snd (transform x y (afterCalls cs)) =
    Ok (if JS.objectIs x (-0) then 0%float else x, y, 0%float)
  /\ JS.strictEq (if JS.objectIs x (-0) then 0%float else x) x = true.
Proof.
  intros Hs Hx Hy.
  rewrite (transform_spec _ x y (cacheOk_afterCalls cs)), Hs. simpl.
  unfold sumF, sumE; simpl. rewrite sub_zero_r.
  unfold JS.objectIs. destruct (PrimFloat.Leibniz.eqb x _) eqn:E.
  - apply FloatAxioms.Leibniz.eqb_spec in E. subst x. split; reflexivity.
  - assert (x <> (-0)%float) as Hne.
    { intros ->. vm_compute in E. discriminate E. }
    rewrite (add_zero_r x Hne). split; [reflexivity|].
    apply strictEq_refl, finite_not_nan, Hx.
Qed.

Lemma transform_identity_on_empty_stack_witness :
  snd (transform 3 4 (afterCalls [PushTransform "matrix(1,0,0,1,10,20)"; PopTransform]))
  = Ok (3%float, 4%float, 0%float)
  /\ JS.strictEq 3 3 = true.
Proof.
  apply (transform_identity_on_empty_stack
           [PushTransform "matrix(1,0,0,1,10,20)"; PopTransform] 3 4);
    vm_compute; reflexivity.
Defined.

(** For [x = -0] the first component is [+0]. *)
Example transform_negative_zero :
  snd (transform (-0) 0 createTransformParser) = Ok (0%float, 0%float, 0%float).
Proof. vm_compute. reflexivity. Qed.

(* ===================================================================== *)
(** * The view box and the vertical flip *)
(* ===================================================================== *)

Section ViewBoxFacts.
Context `{Collaborators}.

Lemma handleElementStart_svg (el : Element) (st : Renderer) :
  tagName el = "svg" ->
  handleElementStart el st =
  match viewBoxArr el with
  | [l; t; w; h] =>
      (setViewBox {| ViewBox.left := l; ViewBox.top := t;
                     ViewBox.width := w; ViewBox.height := h |} st, Ok tt)
  | _ => (st, Throw (InvalidViewBox (attributes el !! "viewBox")))
  end.
Proof.
  intros Ht. unfold handleElementStart. rewrite Ht. simpl.
  destruct (viewBoxArr el) as [|l [|t [|w [|h [|x xs]]]]]; reflexivity.
Qed.

(** C5. On the start of an [svg] element the attribute [viewBox]
    (["0 0 1024 1024"] when it is absent or empty) is split at each space
    and every piece goes through [parseFloat]; the tokens are the pieces
    that give a finite number, the others being dropped. The handler throws
    [InvalidViewBox] when the tokens are not exactly four, and otherwise
    stores them, in order, as left, top, width and height.
    ["0 0 1024 1024"] and the absent attribute give [(0, 0, 1024, 1024)];
    ["0 0 1024"] has three tokens and throws. *)
Theorem viewBox_from_finite_numbers (el : Element) (st : Renderer) :
  tagName el = "svg" ->
  handleElementStart el st =
    (if (length (viewBoxArr el) =? 4)%nat
     then (setViewBox {| ViewBox.left := nth 0 (viewBoxArr el) JS.NaN;
                         ViewBox.top := nth 1 (viewBoxArr el) JS.NaN;
                         ViewBox.width := nth 2 (viewBoxArr el) JS.NaN;
                         ViewBox.height := nth 3 (viewBoxArr el) JS.NaN |} st, Ok tt)
     else (st, Throw (InvalidViewBox (attributes el !! "viewBox"))))
  /\ viewBoxArr el =
       List.filter JS.isFinite
         (map JS.parseFloat
            (JS.split " " (orElse (attributes el !! "viewBox") "0 0 1024 1024")))
  /\ viewBoxArr (svgElement (Some "0 0 1024 1024")) = [0; 0; 1024; 1024]%float
  /\ viewBoxArr (svgElement None) = [0; 0; 1024; 1024]%float
  /\ viewBoxArr (svgElement (Some "0 0 1024")) = [0; 0; 1024]%float.
Proof.
  intros Ht. rewrite (handleElementStart_svg el st Ht).
  split; [|repeat split; vm_compute; reflexivity].
  destruct (viewBoxArr el) as [|l [|t [|w [|h [|x xs]]]]]; reflexivity.
Qed.

End ViewBoxFacts.

Lemma viewBox_from_finite_numbers_witness :
  handleElementStart (H := sampleCollaborators) (svgElement (Some "0 0 1024 1024"))
    createStreamingSVGRenderer =
  (setViewBox {| ViewBox.left := 0; ViewBox.top := 0;
                 ViewBox.width := 1024; ViewBox.height := 1024 |}
              createStreamingSVGRenderer, Ok tt).
Proof.
  apply (viewBox_from_finite_numbers (H := sampleCollaborators)
           (svgElement (Some "0 0 1024 1024")) createStreamingSVGRenderer).
  reflexivity.
Defined.

(** The pieces that are not finite numbers do not count: an empty piece
    between two spaces or a unit is dropped and the attribute is accepted,
    and a word among four pieces leaves three numbers and is refused. *)
Example viewBox_pieces_that_are_not_numbers :
  (length (JS.split " " "0 0  1024 1024") = 5%nat
   /\ handleElementStart (H := sampleCollaborators) (svgElement (Some "0 0  1024 1024"))
        createStreamingSVGRenderer =
      (setViewBox {| ViewBox.left := 0; ViewBox.top := 0;
                     ViewBox.width := 1024; ViewBox.height := 1024 |}
                  createStreamingSVGRenderer, Ok tt))
  /\ (length (JS.split " " "0 0 1024 1024 px") = 5%nat
      /\ isOk (snd (handleElementStart (H := sampleCollaborators)
                      (svgElement (Some "0 0 1024 1024 px"))
                      createStreamingSVGRenderer)) = true)
  /\ (length (JS.split " " "0 0 auto 1024") = 4%nat
      /\ isOk (snd (handleElementStart (H := sampleCollaborators)
                      (svgElement (Some "0 0 auto 1024"))
                      createStreamingSVGRenderer)) = false).
Proof. vm_compute. repeat split; reflexivity. Qed.

Section FlipFacts.


Lemma In_integersFrom (lo n : Z) (count : nat) :
  lo <= n < lo + Z.of_nat count -> In n (integersFrom lo count).
Proof.
  intros Hn. unfold integersFrom. apply in_map_iff.
  exists (Z.to_nat (n - lo)). split; [lia|]. apply in_seq. lia.
Qed.


End FlipFacts.




(* ===================================================================== *)
(** * The complementary colour *)
(* ===================================================================== *)

Section ColourFacts.



Lemma land_255 (z : Z) : Z.land z 255 = z mod 256.
Proof. change 255 with (Z.ones 8). rewrite Z.land_ones by lia. reflexivity. Qed.





End ColourFacts.


(* ===================================================================== *)
(** * Ingestion keeps the node indices consistent *)
(* ===================================================================== *)

Section IngestionFacts.
Context `{Collaborators}.

Lemma sameIndex_refl (st : Renderer) : sameIndex st st.
Proof. repeat split. Qed.

Lemma sameIndex_trans (a b c : Renderer) :
  sameIndex a b -> sameIndex b c -> sameIndex a c.
Proof.
  intros (H1 & H2 & H3) (H4 & H5 & H6). repeat split; congruence.
Qed.

Lemma frames_ret {A} (a : A) : frames (ret a).
Proof. intros st. apply sameIndex_refl. Qed.

Lemma frames_throw {A} (e : error) : frames (throw (A := A) e).
Proof. intros st. apply sameIndex_refl. Qed.

Lemma frames_gets {A} (f : Renderer -> A) : frames (gets f).
Proof. intros st. apply sameIndex_refl. Qed.

Lemma frames_liftResult {A} (r : result A) : frames (liftResult r).
Proof. intros st. apply sameIndex_refl. Qed.

Lemma frames_bind {A B} (m : M Renderer A) (k : A -> M Renderer B) :
  frames m -> (forall a, frames (k a)) -> frames (bind m k).
Proof.
  intros Hm Hk st. unfold bind. specialize (Hm st).
  destruct (m st) as [st' [a|e]]; simpl in *; [|exact Hm].
  eapply sameIndex_trans; [exact Hm|apply Hk].
Qed.

Lemma frames_mapM {A B} (f : A -> M Renderer B) (xs : list A) :
  (forall x, frames (f x)) -> frames (mapM f xs).
Proof.
  intros Hf. induction xs as [|x xs IH]; simpl; [apply frames_ret|].
  apply frames_bind; [apply Hf|]. intros y.
  apply frames_bind; [apply IH|]. intros ys. apply frames_ret.
Qed.

Lemma frames_onTransform {A} (m : M TransformParser A) : frames (onTransform m).
Proof.
  intros st. unfold onTransform. destruct (m (currentTransform st)) as [p r].
  repeat split.
Qed.

Lemma frames_transformY (y : float) : frames (transformY y).
Proof.
  unfold transformY. apply frames_bind; [apply frames_gets|].
  intros [v|]; [apply frames_ret|apply frames_throw].
Qed.

Lemma frames_addBorder (el : Element) : frames (addBorder el).
Proof.
  unfold addBorder, parseBorder.
  apply frames_bind.
  - apply frames_bind; [|intros; apply frames_ret].
    apply frames_mapM. intros xy.
    apply frames_bind; [apply frames_transformY|]. intros y'.
    apply frames_bind; [apply frames_onTransform|]. intros p. apply frames_ret.
  - intros pc. destruct (attributes el !! "id"); [|apply frames_throw].
    intros st. repeat split.
Qed.

Lemma indexed_sameIndex (st st' : Renderer) :
  sameIndex st st' -> indexed st -> indexed st'.
Proof.
  intros (Hp & Hn & Hc) [I1 I2 I3 I4].
  split; rewrite ?Hp, ?Hn, ?Hc; assumption.
Qed.

Lemma indexed_create : indexed createStreamingSVGRenderer.
Proof.
  split; simpl.
  - constructor.
  - intros ui Hin. inversion Hin.
  - intros n ui Hl. rewrite lookup_empty in Hl. discriminate.
  - intros ui Hin. inversion Hin.
Qed.

Lemma transform_total (x y : float) (p : TransformParser) :
  exists p' position, transform x y p = (p', Ok position).
Proof.
  unfold transform, updateTransform, bind, gets, ret.
  destruct (isDirty p); simpl; [|eauto].
  unfold modify. rewrite forEach_modify. eauto.
Qed.

Lemma setHas_true (x : string) (s : list string) : setHas x s = true <-> x ∈ s.
Proof.
  unfold setHas. rewrite existsb_exists. split.
  - intros (y & Hin & Heq). apply String.eqb_eq in Heq. subst y.
    apply list_elem_of_In, Hin.
  - intros Hin. exists x. split; [apply list_elem_of_In, Hin|apply String.eqb_refl].
Qed.

Lemma setAdd_elem (x y : string) (s : list string) :
  y ∈ setAdd x s <-> y = x \/ y ∈ s.
Proof.
  unfold setAdd. destruct (setHas x s) eqn:E.
  - apply setHas_true in E. split; [auto|]. intros [->|Hy]; assumption.
  - rewrite elem_of_app, list_elem_of_singleton. tauto.
Qed.

(** What [addNode] does: it throws and changes nothing, or it registers
    one record under a name that was free. *)
Lemma addNode_cases (el : Element) (st : Renderer) :
  (exists e, addNode el st = (st, Throw e))
  \/ (exists p ui,
        nodeNameToUI st !! nodeNameOf el = None
        /\ UI.name ui = nodeNameOf el
        /\ addNode el st =
           (registerUI ui
              (setCurrentTransform p
                 (addToComponent (UI.componentId ui) (nodeNameOf el) st)), Ok tt)).
Proof.
  cbv [addNode transformY bind liftResult gets modify throw ret].
  destruct (getNumericAttribute el "cx") as [x|e]; [|eauto].
  destruct (getNumericAttribute el "cy") as [cy|e]; [|eauto].
  destruct (viewBox st) as [vb|]; [|eauto].
  destruct (getNumericAttribute el "r") as [r|e]; [|eauto].
  assert (getTextAttribute (Some el) "id" = Ok (default ""%string (attributes el !! "id")))
    as -> by (unfold getTextAttribute; destruct (attributes el !! "id"); reflexivity).
  fold (nodeNameOf el).
  destruct (nodeNameToUI st !! nodeNameOf el) as [known|] eqn:Ek; [eauto|].
  destruct (getTextAttribute (parent el) "id") as [c|e]; [|eauto].
  unfold onTransform.
  destruct (transform_total x (ViewBox.height vb + ViewBox.top vb - cy)%float
              (currentTransform (addToComponent c (nodeNameOf el) st)))
    as (p' & pos & ->).
  right.
  exists p', {| UI.componentId := c; UI.position := pos; UI.color := 3705462015;
                UI.size := (r * 2)%float; UI.id := length (positions st);
                UI.name := nodeNameOf el |}.
  repeat split.
Qed.

Lemma fresh_name (st : Renderer) (n : string) :
  indexed st -> nodeNameToUI st !! n = None -> n ∉ (UI.name <$> positions st).
Proof.
  intros I Hn Hin. apply list_elem_of_fmap in Hin as (ui0 & -> & Hin).
  rewrite (positions_registered st I ui0 Hin) in Hn. discriminate.
Qed.

Lemma indexed_register (st : Renderer) (p : TransformParser) (ui : UI.t) :
  indexed st ->
  nodeNameToUI st !! UI.name ui = None ->
  indexed (registerUI ui
             (setCurrentTransform p (addToComponent (UI.componentId ui) (UI.name ui) st))).
Proof.
  intros I Hn. pose proof (fresh_name st _ I Hn) as Hfresh.
  split; simpl.
  - rewrite fmap_app. apply NoDup_app. split; [apply (names_unique st I)|].
    split; [|apply NoDup_singleton].
    intros x Hx Hin. apply list_elem_of_singleton in Hin. subst x. exact (Hfresh Hx).
  - intros u Hin. apply elem_of_app in Hin as [Hin|Hin].
    + rewrite lookup_insert_ne.
      * apply (positions_registered st I u Hin).
      * intros Heq. apply Hfresh. rewrite Heq. apply list_elem_of_fmap. eauto.
    + apply list_elem_of_singleton in Hin. subst u. apply lookup_insert_eq.
  - intros n u Hl. apply elem_of_app.
    destruct (decide (UI.name ui = n)) as [Heq|Hne].
    + subst n. rewrite lookup_insert_eq in Hl. injection Hl as ->. right.
      apply list_elem_of_singleton. reflexivity.
    + rewrite lookup_insert_ne in Hl by exact Hne. left. apply (registered_positions st I n u Hl).
  - intros u Hin. apply elem_of_app in Hin as [Hin|Hin].
    + destruct (component_known st I u Hin) as (members & Hm & Hhas).
      destruct (decide (UI.componentId ui = UI.componentId u)) as [Heq|Hne].
      * rewrite Heq, lookup_insert_eq, Hm. simpl. eexists. split; [reflexivity|].
        apply setHas_true, setAdd_elem. right. apply setHas_true, Hhas.
      * rewrite lookup_insert_ne by exact Hne. eauto.
    + apply list_elem_of_singleton in Hin. subst u. rewrite lookup_insert_eq.
      eexists. split; [reflexivity|]. apply setHas_true, setAdd_elem. left. reflexivity.
Qed.

Lemma indexed_addNode (el : Element) (st : Renderer) :
  indexed st -> indexed (fst (addNode el st)).
Proof.
  intros I. destruct (addNode_cases el st) as [(e & ->)|(p & ui & Hn & Hname & ->)].
  - exact I.
  - simpl. rewrite <- Hname in *. apply indexed_register; assumption.
Qed.

Lemma indexed_handle (ev : event) (st : Renderer) :
  indexed st -> indexed (fst (handle ev st)).
Proof.
  intros I. destruct ev as [el|el]; simpl.
  - unfold handleElementStart.
    destruct (String.eqb (tagName el) "svg").
    { destruct (viewBoxArr el) as [|l [|t [|w [|h [|x xs]]]]]; try exact I.
      eapply indexed_sameIndex; [|exact I]. repeat split. }
    destruct (String.eqb (tagName el) "path").
    { eapply indexed_sameIndex; [apply frames_addBorder|exact I]. }
    destruct (String.eqb (tagName el) "circle").
    { apply indexed_addNode, I. }
    destruct (truthy (attributes el !! "transform")); [|exact I].
    eapply indexed_sameIndex; [apply frames_onTransform|exact I].
  - unfold handleElementEnd.
    destruct (truthy (attributes el !! "transform")); [|exact I].
    eapply indexed_sameIndex; [apply frames_onTransform|exact I].
Qed.

Lemma indexed_ingest (evs : list event) (st : Renderer) :
  indexed st -> indexed (ingest evs st).
Proof.
  revert st. induction evs as [|ev evs IH]; intros st I; simpl; [exact I|].
  apply IH, indexed_handle, I.
Qed.

Lemma reachable_indexed (st : Renderer) : reachable st -> indexed st.
Proof. intros (evs & ->). apply indexed_ingest, indexed_create. Qed.

(** A circle whose name is registered is refused, whatever else it
    carries, and nothing changes. *)
Lemma addNode_registered (el : Element) (st : Renderer) :
  is_Some (nodeNameToUI st !! nodeNameOf el) ->
  exists e, addNode el st = (st, Throw e).
Proof.
  intros [ui0 Hk].
  destruct (addNode_cases el st) as [He|(p & ui & Hn & _)]; [exact He|].
  rewrite Hk in Hn. discriminate.
Qed.

(** When its coordinates and radius are finite numbers and the view box
    is set, the exception is the one for a duplicate name. *)
Lemma addNode_duplicate (el : Element) (st : Renderer) (x y r : float) (vb : ViewBox.t) :
  is_Some (nodeNameToUI st !! nodeNameOf el) ->
  getNumericAttribute el "cx" = Ok x ->
  getNumericAttribute el "cy" = Ok y ->
  getNumericAttribute el "r" = Ok r ->
  viewBox st = Some vb ->
  addNode el st = (st, Throw (DuplicateNodeName (nodeNameOf el))).
Proof.
  intros [ui0 Hk] Hx Hy Hr Hv.
  cbv [addNode transformY bind liftResult gets modify throw ret].
  rewrite Hx, Hy, Hv, Hr.
  assert (getTextAttribute (Some el) "id" = Ok (default ""%string (attributes el !! "id")))
    as -> by (unfold getTextAttribute; destruct (attributes el !! "id"); reflexivity).
  fold (nodeNameOf el). rewrite Hk. reflexivity.
Qed.

Lemma handleElementStart_circle (el : Element) :
  tagName el = "circle" -> handleElementStart el = addNode el.
Proof. intros Ht. unfold handleElementStart. rewrite Ht. reflexivity. Qed.

(** C6. In every state the handlers can reach, two records of
    [positions] at different places have different names, the name of a
    record being the circle's [id] without one leading underscore. A
    circle whose name is already registered makes [handleElementStart]
    throw and leaves the state as it was, so that no record is stored; the
    exception is [DuplicateNodeName] whenever the circle is otherwise
    well formed ([cx], [cy] and [r] finite, and the view box set). *)
Theorem node_names_unique (st : Renderer) :
  reachable st ->
  (forall (i j : nat) (ui uj : UI.t),
     i <> j -> positions st !! i = Some ui -> positions st !! j = Some uj ->
     UI.name ui <> UI.name uj)
  /\ (forall el : Element,
        tagName el = "circle" ->
        is_Some (nodeNameToUI st !! nodeNameOf el) ->
        (exists e, handleElementStart el st = (st, Throw e))
        /\ (forall (x y r : float) (vb : ViewBox.t),
              getNumericAttribute el "cx" = Ok x ->
              getNumericAttribute el "cy" = Ok y ->
              getNumericAttribute el "r" = Ok r ->
              viewBox st = Some vb ->
              handleElementStart el st = (st, Throw (DuplicateNodeName (nodeNameOf el)))))
  /\ (forall (el : Element) (ui : UI.t),
        tagName el = "circle" ->
        ui ∈ positions (fst (handleElementStart el st)) ->
        ui ∉ positions st ->
        UI.name ui = nodeNameOf el).
Proof.
  intros Hr. pose proof (reachable_indexed st Hr) as I.
  split; [|split].
  - intros i j ui uj Hij Hi Hj Heq.
    apply Hij. eapply (NoDup_lookup _ i j (UI.name ui)).
    + apply (names_unique st I).
    + rewrite list_lookup_fmap, Hi. reflexivity.
    + rewrite list_lookup_fmap, Hj, Heq. reflexivity.
  - intros el Ht Hk. rewrite (handleElementStart_circle el Ht). split.
    + apply addNode_registered, Hk.
    + intros x y r vb Hx Hy Hrr Hv. eapply addNode_duplicate; eassumption.
  - intros el ui Ht Hin Hnot. rewrite (handleElementStart_circle el Ht) in Hin.
    destruct (addNode_cases el st) as [(e & He)|(p & u & Hn & Hname & He)];
      rewrite He in Hin; simpl in Hin.
    + contradiction.
    + apply elem_of_app in Hin as [Hin|Hin]; [contradiction|].
      apply list_elem_of_singleton in Hin. subst u. exact Hname.
Qed.

End IngestionFacts.

Lemma namesSample_reachable : reachable (H := sampleCollaborators) namesSample.
Proof. eexists. reflexivity. Qed.

Lemma node_names_unique_witness :
  (exists ui uj : UI.t,
     positions namesSample !! 0%nat = Some ui
     /\ positions namesSample !! 1%nat = Some uj
     /\ UI.name ui <> UI.name uj)
  /\ (exists e,
        handleElementStart (H := sampleCollaborators)
          (circleElement "c" "_a" "7" "8" "9") namesSample = (namesSample, Throw e))
  /\ handleElementStart (H := sampleCollaborators)
       (circleElement "c" "_a" "7" "8" "9") namesSample =
     (namesSample, Throw (DuplicateNodeName "a"))
  /\ (exists ui : UI.t,
        positions (fst (handleElementStart (H := sampleCollaborators)
                          (circleElement "c" "_z" "7" "8" "9") namesSample))
          !! 2%nat = Some ui
        /\ UI.name ui = "z").
Proof.
  destruct (node_names_unique (H := sampleCollaborators) namesSample namesSample_reachable)
    as (Hdistinct & Hdup & Hname).
  split; [|split; [|split]].
  - eexists _, _. split; [vm_compute; reflexivity|]. split; [vm_compute; reflexivity|].
    apply (Hdistinct 0%nat 1%nat); [lia|vm_compute; reflexivity|vm_compute; reflexivity].
  - apply (Hdup (circleElement "c" "_a" "7" "8" "9")); [reflexivity|].
    vm_compute. eexists. reflexivity.
  - apply (proj2 (Hdup (circleElement "c" "_a" "7" "8" "9") eq_refl
                       ltac:(vm_compute; eexists; reflexivity))
             7%float 8%float 9%float
             {| ViewBox.left := 0; ViewBox.top := 0;
                ViewBox.width := 1024; ViewBox.height := 1024 |});
      vm_compute; reflexivity.
  - eexists. split; [vm_compute; reflexivity|].
    apply (Hname (circleElement "c" "_z" "7" "8" "9")); [reflexivity| |].
    + vm_compute. apply list_elem_of_further, list_elem_of_further, list_elem_of_here.
    + intros Hin. apply list_elem_of_In in Hin. vm_compute in Hin.
      destruct Hin as [Hin|[Hin|[]]]; discriminate Hin.
Defined.

(* ===================================================================== *)
(** * Highlights *)
(* ===================================================================== *)

Section HighlightFacts.
Context `{Collaborators}.






End HighlightFacts.




(* ===================================================================== *)
(** * The cap on highlighted links *)
(* ===================================================================== *)

Section LinkCapFacts.
Variables (st : Renderer) (graph : Graph.t) (ui : UI.t).
Variables (neighbors : list string) (secondaryLinkColor : option Z).





(** The links already collected play no part in a visit. *)
Lemma visitLink_acc (neighborId other : string) (i : Z) (acc : list Highlight.link) :
  visitLink st ui neighbors secondaryLinkColor neighborId other
    {| Highlight.idx := i; Highlight.linkUIs := acc |} =
  (let '(v, r) := visitLink st ui neighbors secondaryLinkColor neighborId other
                    {| Highlight.idx := i; Highlight.linkUIs := [] |} in
   ({| Highlight.idx := Highlight.idx v; Highlight.linkUIs := acc ++ Highlight.linkUIs v |}, r)).
Proof.
  cbv [visitLink positionOf bind gets modify ret throw].
  destruct (setHas other neighbors); simpl; [|rewrite app_nil_r; reflexivity].
  destruct ((maxLinks <? i) &&
            negb (String.eqb neighborId (UI.name ui) || String.eqb other (UI.name ui)));
    simpl; [rewrite app_nil_r; reflexivity|].
  destruct (nodeNameToUI st !! neighborId); [|rewrite app_nil_r; reflexivity].
  destruct (nodeNameToUI st !! other); [|rewrite app_nil_r; reflexivity].
  reflexivity.
Qed.

Lemma visitLinks_acc (neighborId : string) (ls : list (string * Graph.Link))
    (i : Z) (acc : list Highlight.link) :
  forEach (fun ol => visitLink st ui neighbors secondaryLinkColor neighborId (fst ol)) ls
    {| Highlight.idx := i; Highlight.linkUIs := acc |} =
  (let '(v, r) :=
     forEach (fun ol => visitLink st ui neighbors secondaryLinkColor neighborId (fst ol)) ls
       {| Highlight.idx := i; Highlight.linkUIs := [] |} in
   ({| Highlight.idx := Highlight.idx v; Highlight.linkUIs := acc ++ Highlight.linkUIs v |}, r)).
Proof.
  revert i acc. induction ls as [|ol ls IH]; intros i acc; simpl.
  - unfold ret. rewrite app_nil_r. reflexivity.
  - unfold bind. rewrite (visitLink_acc neighborId (fst ol) i acc).
    destruct (visitLink st ui neighbors secondaryLinkColor neighborId (fst ol)
                {| Highlight.idx := i; Highlight.linkUIs := [] |}) as [[i1 l1] [[]|e]];
      simpl; [|reflexivity].
    rewrite (IH i1 (acc ++ l1)), (IH i1 l1).
    destruct (forEach _ ls {| Highlight.idx := i1; Highlight.linkUIs := [] |}) as [[i2 l2] r].
    simpl. rewrite app_assoc. reflexivity.
Qed.

Lemma visitNeighbor_acc (neighborId : string) (v : Highlight.locals) :
  visitNeighbor st graph ui neighbors secondaryLinkColor neighborId v =
  (let '(v', r) := visitNeighbor st graph ui neighbors secondaryLinkColor neighborId
                     {| Highlight.idx := 0; Highlight.linkUIs := [] |} in
   ({| Highlight.idx := Highlight.idx v';
       Highlight.linkUIs := Highlight.linkUIs v ++ Highlight.linkUIs v' |}, r)).
Proof.
  unfold visitNeighbor, Graph.forEachLinkedNode, bind, modify. simpl.
  apply visitLinks_acc.
Qed.


(** The result of the outer loop is made of the links of each node of
    the cluster, in the order of the cluster. *)
Lemma visitNeighbors_parts (ns : list string) (v v' : Highlight.locals) :
  forEach (visitNeighbor st graph ui neighbors secondaryLinkColor) ns v = (v', Ok tt) ->
  exists parts : list (list Highlight.link),
    Highlight.linkUIs v' = Highlight.linkUIs v ++ concat parts
    /\ Forall2 (fun n part =>
                  exists w, visitNeighbor st graph ui neighbors secondaryLinkColor n
                              {| Highlight.idx := 0; Highlight.linkUIs := [] |} = (w, Ok tt)
                            /\ Highlight.linkUIs w = part)
               ns parts.
Proof.
  revert v. induction ns as [|n ns IH]; intros v; simpl.
  - unfold ret. intros [= <-]. exists []. simpl. rewrite app_nil_r.
    split; [reflexivity|constructor].
  - unfold bind. rewrite (visitNeighbor_acc n v).
    destruct (visitNeighbor st graph ui neighbors secondaryLinkColor n
                {| Highlight.idx := 0; Highlight.linkUIs := [] |}) as [w [[]|e]] eqn:Hw;
      simpl; [|discriminate].
    intros Hrest. destruct (IH _ Hrest) as (parts & Hl & Hall). simpl in Hl.
    exists (Highlight.linkUIs w :: parts). split.
    + simpl. rewrite Hl, app_assoc. reflexivity.
    + constructor; [|exact Hall]. exists w. split; [exact Hw|reflexivity].
Qed.

End LinkCapFacts.



(** C1, at an input where the code departs from it. In a cluster of
    fourteen nodes where [n] links to twelve others and the focused node
    [u] has no link, the visit of [n] emits eleven links that are not
    first-level: the test [idx > maxLinks] lets through the links counted
    0 to 10, one more than [maxLinks]. *)
Theorem highlighted_links_exceed_cap :
  exists (members : list string) (all fromN : list Highlight.link),
    nodesByComponent capSample !! "c" = Some members
    /\ nodeNameToUI capSample !! "u" = Some capFocus
    /\ getHighlightedLinks capSample (Some capGraph) capFocus = Ok all
    /\ linksFrom capSample capGraph capFocus members "n" = Ok fromN
    /\ forallb (fun l => negb (Highlight.isFirstLevel l)) fromN = true
    /\ length fromN = 11%nat
    /\ length (secondaryFrom (2, 1014, 0)%float all) = 11%nat
    /\ maxLinks = 10.
Proof.
  eexists _, _, _.
  split; [vm_compute; reflexivity|].
  split; [vm_compute; reflexivity|].
  split; [vm_compute; reflexivity|].
  split; [vm_compute; reflexivity|].
  vm_compute. repeat split; reflexivity.
Qed.

(* ===================================================================== *)
(** * The tags of the related subgraph *)
(* ===================================================================== *)

Section SubgraphFacts.

Lemma findNode_app (ns : list (string * option Graph.nodeData)) (id id' : string)
    (d : option Graph.nodeData) :
  Graph.findNode (ns ++ [(id, d)]) id' =
  match Graph.findNode ns id' with
  | Some x => Some x
  | None => if String.eqb id id' then Some d else None
  end.
Proof.
  induction ns as [|[id0 d0] ns IH]; simpl; [reflexivity|].
  destruct (String.eqb id0 id'); [reflexivity|exact IH].
Qed.

Lemma findNode_setData (ns : list (string * option Graph.nodeData)) (id id' : string)
    (d : option Graph.nodeData) :
  Graph.findNode (Graph.setData ns id d) id' =
  if String.eqb id id' then option_map (fun _ => d) (Graph.findNode ns id)
  else Graph.findNode ns id'.
Proof.
  induction ns as [|[id0 d0] ns IH]; simpl.
  - destruct (String.eqb id id'); reflexivity.
  - destruct (String.eqb_spec id0 id) as [->|Hne]; simpl.
    + destruct (String.eqb id id'); reflexivity.
    + rewrite IH. destruct (String.eqb_spec id id') as [->|Hne'].
      * apply String.eqb_neq in Hne. rewrite Hne. reflexivity.
      * reflexivity.
Qed.

(** [addNode] with data settles its node and no other. *)
Lemma settled_addNode (g : Graph.sub) (node n : string) (dt d : Graph.nodeData) :
  settled (Graph.addNode g node (Some dt)) n d <->
  (n = node /\ d = dt) \/ (n <> node /\ settled g n d).
Proof.
  unfold settled, Graph.addNode, Graph.getNode.
  destruct (Graph.findNode (Graph.nodes g) node) as [old|] eqn:Hold; simpl.
  - rewrite findNode_setData, Hold. simpl.
    destruct (String.eqb_spec node n) as [->|Hne].
    + split; [intros [= ->]; left; split; reflexivity|].
      intros [[_ ->]|[Hne _]]; [reflexivity|contradiction].
    + split; [intros Hs; right; split; [congruence|exact Hs]|].
      intros [[-> _]|[_ Hs]]; [contradiction|exact Hs].
  - rewrite findNode_app.
    destruct (String.eqb_spec node n) as [->|Hne].
    + rewrite Hold. split; [intros [= ->]; left; split; reflexivity|].
      intros [[_ ->]|[Hne _]]; [reflexivity|contradiction].
    + destruct (Graph.findNode (Graph.nodes g) n) as [x|].
      * split; [intros Hs; right; split; [congruence|exact Hs]|].
        intros [[-> _]|[_ Hs]]; [contradiction|exact Hs].
      * split; [discriminate|]. intros [[-> _]|[_ Hs]]; [contradiction|discriminate].
Qed.

(** [addLink] settles nothing: the nodes it creates have no data. *)
Lemma settled_ensureNode (g : Graph.sub) (m n : string) (d : Graph.nodeData) :
  settled (Graph.ensureNode g m) n d <-> settled g n d.
Proof.
  unfold settled, Graph.ensureNode, Graph.getNode.
  destruct (Graph.findNode (Graph.nodes g) m) as [old|] eqn:Hold; [reflexivity|].
  unfold Graph.addNode, Graph.getNode. rewrite Hold. simpl. rewrite findNode_app.
  destruct (Graph.findNode (Graph.nodes g) n) as [x|]; [reflexivity|].
  destruct (String.eqb m n); split; discriminate.
Qed.

Lemma settled_addLink (g : Graph.sub) (a b n : string) (t : bool) (d : Graph.nodeData) :
  settled (Graph.addLink g a b t) n d <-> settled g n d.
Proof.
  unfold Graph.addLink.
  change (settled (Graph.ensureNode (Graph.ensureNode g a) b) n d <-> settled g n d).
  rewrite !settled_ensureNode. reflexivity.
Qed.

Lemma hasLink_of_object (g : Graph.t) (k : Graph.key) :
  Graph.hasLink g Graph.GraphObject k = false.
Proof. unfold Graph.hasLink. induction g as [|l g IH]; simpl; [reflexivity|exact IH]. Qed.

Variables (graph : Graph.t) (subreddit : string) (members : list string).

(** The loop over the links of a node returns and settles nothing. *)
Lemma relateLinks_settled (ls : list (string * Graph.Link)) (g : Graph.sub) :
  exists g',
    forEach (fun ol : string * Graph.Link =>
      if negb (setHas (fst ol) members) then ret tt
      else
        present <- gets (fun subgraph =>
          Graph.subHasLink subgraph (Graph.fromId (snd ol)) (Graph.toId (snd ol))) ;;
        if present then ret tt
        else
          modify (fun subgraph =>
            Graph.addLink subgraph (Graph.fromId (snd ol)) (Graph.toId (snd ol))
              (String.eqb (Graph.fromId (snd ol)) subreddit
               || String.eqb (Graph.toId (snd ol)) subreddit))) ls g = (g', Ok tt)
    /\ forall n d, settled g' n d <-> settled g n d.
Proof.
  revert g. induction ls as [|ol ls IH]; intros g; simpl.
  - exists g. split; reflexivity.
  - unfold bind at 1.
    destruct (setHas (fst ol) members); simpl.
    + unfold bind at 1, gets at 1.
      destruct (Graph.subHasLink g (Graph.fromId (snd ol)) (Graph.toId (snd ol))).
      * apply IH.
      * unfold modify at 1.
        destruct (IH (Graph.addLink g (Graph.fromId (snd ol)) (Graph.toId (snd ol))
                        (String.eqb (Graph.fromId (snd ol)) subreddit
                         || String.eqb (Graph.toId (snd ol)) subreddit)))
          as (g' & Hrun & Hs).
        exists g'. split; [exact Hrun|].
        intros n d. rewrite Hs. apply settled_addLink.
    + apply IH.
Qed.

(** [relateNode] returns; it settles its node with the tag the code
    computes if the node carried no data, and nothing else. *)
Lemma relateNode_settled (node : string) (g : Graph.sub) :
  exists g',
    relateNode graph subreddit members node g = (g', Ok tt)
    /\ forall n d,
         settled g' n d <->
         settled g n d
         \/ (n = node /\ (forall d0, ~ settled g node d0)
             /\ d = Graph.IsFirstChild
                      (Graph.hasLink graph (Graph.Name node) (Graph.Name subreddit)
                       || Graph.hasLink graph Graph.GraphObject (Graph.Name node))).
Proof.
  unfold relateNode, Graph.forEachLinkedNode.
  unfold bind at 1. unfold bind at 1. unfold gets at 1.
  destruct (Graph.getNode g node) as [[d1|]|] eqn:Hnode.
  - unfold ret at 1.
    destruct (relateLinks_settled (Graph.linkedNodes graph node) g) as (g' & Hrun & Hs).
    exists g'. split; [exact Hrun|]. intros n d. rewrite Hs.
    split; [auto|]. intros [Hs'|(-> & Hnot & _)]; [exact Hs'|].
    exfalso. exact (Hnot d1 Hnode).
  - unfold modify at 1.
    destruct (relateLinks_settled (Graph.linkedNodes graph node)
                (Graph.addNode g node
                   (Some (Graph.IsFirstChild
                            (Graph.hasLink graph (Graph.Name node) (Graph.Name subreddit)
                             || Graph.hasLink graph Graph.GraphObject (Graph.Name node))))))
      as (g' & Hrun & Hs).
    exists g'. split; [exact Hrun|]. intros n d. rewrite Hs, settled_addNode.
    split.
    + intros [[-> ->]|[Hne Hs']]; [right|left; exact Hs'].
      split; [reflexivity|]. split; [|reflexivity].
      intros d0 H0. unfold settled in H0. rewrite Hnode in H0. discriminate.
    + intros [Hs'|(-> & _ & ->)]; [|left; split; reflexivity].
      right. split; [|exact Hs']. intros ->. unfold settled in Hs'.
      rewrite Hnode in Hs'. discriminate.
  - unfold modify at 1.
    destruct (relateLinks_settled (Graph.linkedNodes graph node)
                (Graph.addNode g node
                   (Some (Graph.IsFirstChild
                            (Graph.hasLink graph (Graph.Name node) (Graph.Name subreddit)
                             || Graph.hasLink graph Graph.GraphObject (Graph.Name node))))))
      as (g' & Hrun & Hs).
    exists g'. split; [exact Hrun|]. intros n d. rewrite Hs, settled_addNode.
    split.
    + intros [[-> ->]|[Hne Hs']]; [right|left; exact Hs'].
      split; [reflexivity|]. split; [|reflexivity].
      intros d0 H0. unfold settled in H0. rewrite Hnode in H0. discriminate.
    + intros [Hs'|(-> & _ & ->)]; [|left; split; reflexivity].
      right. split; [|exact Hs']. intros ->. unfold settled in Hs'.
      rewrite Hnode in Hs'. discriminate.
Qed.

Lemma relateAll_tagged (ms : list string) (g : Graph.sub) :
  tagged graph subreddit g ->
  exists g',
    forEach (relateNode graph subreddit members) ms g = (g', Ok tt)
    /\ tagged graph subreddit g'
    /\ (forall n d, settled g n d -> settled g' n d)
    /\ (forall n, n ∈ ms -> exists d, settled g' n d).
Proof.
  revert g. induction ms as [|m ms IH]; intros g Ht; simpl.
  - exists g. split; [reflexivity|]. split; [exact Ht|]. split; [auto|].
    intros n Hin. inversion Hin.
  - unfold bind.
    destruct (relateNode_settled m g) as (g1 & Hrun1 & Hs1). rewrite Hrun1.
    assert (tagged graph subreddit g1) as Ht1.
    { destruct Ht as [Hroot Htag]. split.
      - apply Hs1. left. exact Hroot.
      - intros n d Hs Hne. apply Hs1 in Hs as [Hs|(-> & _ & ->)].
        + apply (Htag n d Hs Hne).
        + rewrite hasLink_of_object, orb_false_r. reflexivity. }
    destruct (IH g1 Ht1) as (g' & Hrun & Ht' & Hmono & Hall).
    exists g'. split; [exact Hrun|]. split; [exact Ht'|]. split.
    + intros n d Hs. apply Hmono, Hs1. left. exact Hs.
    + intros n Hin. apply elem_of_cons in Hin as [->|Hin]; [|apply Hall, Hin].
      destruct (Graph.getNode g m) as [[d1|]|] eqn:Hm.
      * exists d1. apply Hmono, Hs1. left. exact Hm.
      * eexists. apply Hmono, Hs1. right. split; [reflexivity|].
        split; [|reflexivity]. intros d0 H0. unfold settled in H0. rewrite Hm in H0.
        discriminate.
      * eexists. apply Hmono, Hs1. right. split; [reflexivity|].
        split; [|reflexivity]. intros d0 H0. unfold settled in H0. rewrite Hm in H0.
        discriminate.
Qed.

End SubgraphFacts.

(** [showRelated] returns whenever a graph is loaded, and the tag of
    every node of the closure other than the root tells whether the full
    graph has a link from that node to the root; a link from the root to
    the node does not count. *)
Lemma showRelated_tags (graph : Graph.t) (subreddit : string) :
  exists subgraph,
    showRelated (Some graph) subreddit = Ok subgraph
    /\ forall n, n ∈ subgraphNodes graph subreddit -> n <> subreddit ->
         isFirstChildOf subgraph n =
         Some (Graph.hasLink graph (Graph.Name n) (Graph.Name subreddit)).
Proof.
  unfold showRelated.
  destruct (relateAll_tagged graph subreddit (subgraphNodes graph subreddit)
              (subgraphNodes graph subreddit)
              (Graph.addNode Graph.createGraph subreddit (Some (Graph.IsRoot true))))
    as (g' & Hrun & [Hroot Htag] & _ & Hall).
  - split.
    + apply settled_addNode. left. split; reflexivity.
    + intros n d Hs Hne. apply settled_addNode in Hs as [[-> _]|[_ Hs]]; [contradiction|].
      discriminate Hs.
  - rewrite Hrun. exists g'. split; [reflexivity|].
    intros n Hin Hne. destruct (Hall n Hin) as (d & Hs).
    rewrite (Htag n d Hs Hne) in Hs. unfold isFirstChildOf. unfold settled in Hs.
    rewrite Hs. reflexivity.
Qed.

(** C2, at an input where the code departs from it. When the only
    link of the full graph goes from the root [R] to [A], the subgraph of
    [R] tags [A] with [isFirstChild] false although [R] and [A] are
    linked: only the direction from the node to the root is looked up,
    the other lookup being made with the subgraph in place of the root.
    With links that point to the root, [A] and [B] are tagged true and
    [C] false; with the same links out of the root, [A] and [B] are
    tagged false. *)
Theorem first_child_misses_links_from_root :
  (exists subgraph,
     showRelated (Some [link "R" "A"]) "R" = Ok subgraph
     /\ Graph.hasLink [link "R" "A"] (Graph.Name "R") (Graph.Name "A") = true
     /\ isFirstChildOf subgraph "A" = Some false)
  /\ (exists subgraph,
        showRelated (Some [link "A" "R"; link "B" "R"; link "A" "C"]) "R" = Ok subgraph
        /\ isFirstChildOf subgraph "A" = Some true
        /\ isFirstChildOf subgraph "B" = Some true
        /\ isFirstChildOf subgraph "C" = Some false)
  /\ (exists subgraph,
        showRelated (Some [link "R" "A"; link "R" "B"; link "A" "C"]) "R" = Ok subgraph
        /\ isFirstChildOf subgraph "A" = Some false
        /\ isFirstChildOf subgraph "B" = Some false
        /\ isFirstChildOf subgraph "C" = Some false).
Proof.
  split; [|split]; eexists; (split; [vm_compute; reflexivity|]);
    vm_compute; repeat split; reflexivity.
Qed.

(* ===================================================================== *)
(** * More on the transform parser *)
(* ===================================================================== *)

Section TransformStackFacts.

Lemma parseTransform_Ok (s : string) (record : list float) :
  parseTransform s = Ok record ->
  length record = 6%nat /\ forall c, In c record -> JS.isFinite c = true.
Proof.
  unfold parseTransform. destruct (JS.matchMatrix s) as [group|]; [|discriminate].
  destruct (length (List.filter finiteNumber _) =? 6)%nat eqn:Hlen; simpl; [|discriminate].
  intros [= <-]. split; [apply Nat.eqb_eq, Hlen|].
  intros c Hin. apply filter_In in Hin. exact (proj2 Hin).
Qed.

(** A resolution never changes the stack, whatever the parser. *)
Lemma transform_stack_any (x y : float) (p : TransformParser) :
  transformStack (fst (transform x y p)) = transformStack p.
Proof.
  unfold transform, updateTransform, bind, gets, ret.
  destruct (isDirty p); simpl; [|reflexivity].
  unfold modify. rewrite forEach_modify, accumulate_fold. reflexivity.
Qed.

Lemma callTransform_stack_incl (c : transformCall) (p : TransformParser)
    (record : list float) :
  In record (transformStack (callTransform c p)) ->
  In record (transformStack p)
  \/ exists s, c = PushTransform s /\ parseTransform s = Ok record.
Proof.
  destruct c as [s| |x y]; simpl.
  - rewrite pushTransform_stack. destruct (parseTransform s) as [r|e] eqn:Hp; [|auto].
    intros Hin. apply in_app_or in Hin as [Hin|[<-|[]]]; [auto|]. right. eauto.
  - rewrite popTransform_stack. intros Hin. left.
    destruct (transformStack p) as [|r0 stack] using rev_ind; [exact Hin|].
    rewrite removelast_last in Hin. apply in_or_app. left. exact Hin.
  - rewrite transform_stack_any. auto.
Qed.

Lemma afterCalls_app (cs more : list transformCall) :
  afterCalls (cs ++ more) = fold_left (fun p c => callTransform c p) more (afterCalls cs).
Proof. unfold afterCalls. apply fold_left_app. Qed.

Lemma pushes_stack (strs : list string) (p : TransformParser) :
  Forall (fun s => isOk (parseTransform s) = true) strs ->
  exists records,
    length records = length strs
    /\ transformStack (fold_left (fun p c => callTransform c p) (map PushTransform strs) p)
       = transformStack p ++ records.
Proof.
  intros Hall. revert p. induction Hall as [|s strs Hs Hall IH]; intros p; simpl.
  - exists []. rewrite app_nil_r. split; reflexivity.
  - destruct (IH (fst (pushTransform s p))) as (records & Hlen & Hst).
    rewrite Hst, pushTransform_stack.
    destruct (parseTransform s) as [r|e]; [|discriminate].
    exists (r :: records). simpl. rewrite Hlen, <- app_assoc. split; reflexivity.
Qed.

Lemma pops_stack (records base : list (list float)) (p : TransformParser) :
  transformStack p = base ++ records ->
  transformStack (fold_left (fun p c => callTransform c p)
                    (repeat PopTransform (length records)) p) = base.
Proof.
  revert p. induction records as [|r records IH] using rev_ind; intros p Hp; simpl.
  - rewrite app_nil_r in Hp. exact Hp.
  - rewrite length_app, Nat.add_1_r. simpl. apply IH.
    rewrite popTransform_stack, Hp, app_assoc. apply removelast_last.
Qed.

Lemma sumE_app (stack : list (list float)) (record : list float) :
  sumE (stack ++ [record]) = (sumE stack + coefficient record 4)%float.
Proof. unfold sumE. rewrite fold_left_app. reflexivity. Qed.

Lemma sumF_app (stack : list (list float)) (record : list float) :
  sumF (stack ++ [record]) = (sumF stack + coefficient record 5)%float.
Proof. unfold sumF. rewrite fold_left_app. reflexivity. Qed.

End TransformStackFacts.

(** X1. Whatever calls were made, every record on the stack of the
    transform parser has exactly six coefficients and all of them are
    finite numbers: [record[4]] and [record[5]] are never missing. *)
Theorem stack_records_have_six_finite_coefficients (cs : list transformCall)
    (record : list float) :
  In record (transformStack (afterCalls cs)) ->
  length record = 6%nat /\ forall c, In c record -> JS.isFinite c = true.
Proof.
  induction cs as [|c cs IH] using rev_ind; [intros []|].
  rewrite afterCalls_app. simpl. intros Hin.
  apply callTransform_stack_incl in Hin as [Hin|(s & _ & Hp)]; [exact (IH Hin)|].
  exact (parseTransform_Ok s record Hp).
Qed.

Lemma stack_records_have_six_finite_coefficients_witness :
  length [1; 0; 0; 1; 10; 20]%float = 6%nat
  /\ forall c, In c [1; 0; 0; 1; 10; 20]%float -> JS.isFinite c = true.
Proof.
  apply (stack_records_have_six_finite_coefficients
           [PushTransform "matrix(1,0,0,1,10,20)"] [1; 0; 0; 1; 10; 20]%float).
  vm_compute. left. reflexivity.
Defined.

(** X2. A push that parses followed by a pop is a round trip: the pop
    returns, the stack is the one before the push, and every later
    resolution gives what it gave before. *)
Theorem push_then_pop_restores (cs : list transformCall) (s : string)
    (record : list float) (x y : float) :
  parseTransform s = Ok record ->
  snd (pushTransform s (afterCalls cs)) = Ok tt
  /\ snd (popTransform (fst (pushTransform s (afterCalls cs)))) = Ok tt
  /\ transformStack (fst (popTransform (fst (pushTransform s (afterCalls cs)))))
     = transformStack (afterCalls cs)
  /\ snd (transform x y (fst (popTransform (fst (pushTransform s (afterCalls cs))))))
     = snd (transform x y (afterCalls cs)).
Proof.
  intros Hp.
  assert (transformStack (fst (popTransform (fst (pushTransform s (afterCalls cs)))))
          = transformStack (afterCalls cs)) as Hst.
  { rewrite popTransform_stack, pushTransform_stack, Hp. apply removelast_last. }
  split; [|split; [|split; [exact Hst|]]].
  - unfold pushTransform, bind, modify, liftResult. simpl. rewrite Hp. reflexivity.
  - unfold popTransform, bind, gets, modify, throw.
    rewrite pushTransform_stack, Hp.
    destruct (transformStack (afterCalls cs)); reflexivity.
  - rewrite (transform_spec _ x y (cacheOk_pop _ (cacheOk_push s (afterCalls cs)))).
    rewrite (transform_spec _ x y (cacheOk_afterCalls cs)). simpl. rewrite Hst.
    reflexivity.
Qed.

Lemma push_then_pop_restores_witness :
  snd (pushTransform "matrix(2,0,0,2,5,7)"
         (afterCalls [PushTransform "matrix(1,0,0,1,10,20)"])) = Ok tt
  /\ snd (popTransform (fst (pushTransform "matrix(2,0,0,2,5,7)"
         (afterCalls [PushTransform "matrix(1,0,0,1,10,20)"])))) = Ok tt
  /\ transformStack (fst (popTransform (fst (pushTransform "matrix(2,0,0,2,5,7)"
         (afterCalls [PushTransform "matrix(1,0,0,1,10,20)"])))))
     = transformStack (afterCalls [PushTransform "matrix(1,0,0,1,10,20)"])
  /\ snd (transform 1 2 (fst (popTransform (fst (pushTransform "matrix(2,0,0,2,5,7)"
         (afterCalls [PushTransform "matrix(1,0,0,1,10,20)"]))))))
     = snd (transform 1 2 (afterCalls [PushTransform "matrix(1,0,0,1,10,20)"])).
Proof.
  apply (push_then_pop_restores [PushTransform "matrix(1,0,0,1,10,20)"]
           "matrix(2,0,0,2,5,7)" [2; 0; 0; 2; 5; 7]%float 1 2).
  vm_compute. reflexivity.
Defined.

(** X3. A push whose string does not parse throws, leaves the stack as
    it was, and changes no later resolution, although it marks the parser
    dirty before it throws. *)
Theorem failed_push_is_harmless (cs : list transformCall) (s : string) (e : error)
    (x y : float) :
  parseTransform s = Throw e ->
  snd (pushTransform s (afterCalls cs)) = Throw e
  /\ isDirty (fst (pushTransform s (afterCalls cs))) = true
  /\ transformStack (fst (pushTransform s (afterCalls cs))) = transformStack (afterCalls cs)
  /\ snd (transform x y (fst (pushTransform s (afterCalls cs))))
     = snd (transform x y (afterCalls cs)).
Proof.
  intros Hp.
  assert (transformStack (fst (pushTransform s (afterCalls cs)))
          = transformStack (afterCalls cs)) as Hst.
  { rewrite pushTransform_stack, Hp. reflexivity. }
  split; [|split; [|split; [exact Hst|]]].
  - unfold pushTransform, bind, modify, liftResult. simpl. rewrite Hp. reflexivity.
  - unfold pushTransform, bind, modify, liftResult. simpl. rewrite Hp. reflexivity.
  - rewrite (transform_spec _ x y (cacheOk_push s (afterCalls cs))).
    rewrite (transform_spec _ x y (cacheOk_afterCalls cs)). simpl. rewrite Hst.
    reflexivity.
Qed.

Lemma failed_push_is_harmless_witness :
  snd (pushTransform "rotate(45)" (afterCalls [PushTransform "matrix(1,0,0,1,10,20)"]))
  = Throw (MalformedTransform "rotate(45)")
  /\ isDirty (fst (pushTransform "rotate(45)"
                     (afterCalls [PushTransform "matrix(1,0,0,1,10,20)"]))) = true
  /\ transformStack (fst (pushTransform "rotate(45)"
                            (afterCalls [PushTransform "matrix(1,0,0,1,10,20)"])))
     = transformStack (afterCalls [PushTransform "matrix(1,0,0,1,10,20)"])
  /\ snd (transform 1 2 (fst (pushTransform "rotate(45)"
                                (afterCalls [PushTransform "matrix(1,0,0,1,10,20)"]))))
     = snd (transform 1 2 (afterCalls [PushTransform "matrix(1,0,0,1,10,20)"])).
Proof.
  apply (failed_push_is_harmless [PushTransform "matrix(1,0,0,1,10,20)"] "rotate(45)"
           (MalformedTransform "rotate(45)") 1 2).
  vm_compute. reflexivity.
Defined.

(** X4. Pushes that parse followed by as many pops leave the stack they
    started from; on a fresh parser they leave it empty, and one more pop
    throws [UnbalancedTransformStack]. *)
Theorem balanced_pushes_and_pops (cs : list transformCall) (strs : list string) :
  Forall (fun s => isOk (parseTransform s) = true) strs ->
  transformStack
    (afterCalls (cs ++ map PushTransform strs ++ repeat PopTransform (length strs)))
  = transformStack (afterCalls cs)
  /\ snd (popTransform
            (afterCalls (map PushTransform strs ++ repeat PopTransform (length strs))))
     = Throw UnbalancedTransformStack.
Proof.
  intros Hall.
  assert (forall cs0,
            transformStack
              (afterCalls (cs0 ++ map PushTransform strs ++ repeat PopTransform (length strs)))
            = transformStack (afterCalls cs0)) as Hbal.
  { intros cs0. rewrite afterCalls_app, fold_left_app.
    destruct (pushes_stack strs (afterCalls cs0) Hall) as (records & Hlen & Hst).
    rewrite <- Hlen. apply (pops_stack records _ _ Hst). }
  split; [apply Hbal|].
  specialize (Hbal []). simpl in Hbal.
  unfold popTransform, bind, gets, throw. rewrite Hbal. reflexivity.
Qed.

Lemma balanced_pushes_and_pops_witness :
  transformStack
    (afterCalls ([PushTransform "matrix(1,0,0,1,10,20)"] ++
                 map PushTransform ["matrix(1,0,0,1,1,1)"; "matrix(1,0,0,1,2,2)"] ++
                 repeat PopTransform 2))
  = transformStack (afterCalls [PushTransform "matrix(1,0,0,1,10,20)"])
  /\ snd (popTransform
            (afterCalls (map PushTransform ["matrix(1,0,0,1,1,1)"; "matrix(1,0,0,1,2,2)"] ++
                         repeat PopTransform 2)))
     = Throw UnbalancedTransformStack.
Proof.
  apply (balanced_pushes_and_pops [PushTransform "matrix(1,0,0,1,10,20)"]
           ["matrix(1,0,0,1,1,1)"; "matrix(1,0,0,1,2,2)"]).
  repeat constructor.
Defined.

(** X5. The resolved offsets are cached: a resolution leaves the parser
    clean, and a resolution on the parser it left changes nothing more. *)
Theorem resolution_is_cached (p : TransformParser) (x y x' y' : float) :
  isDirty (fst (transform x y p)) = false
  /\ fst (transform x' y' (fst (transform x y p))) = fst (transform x y p).
Proof.
  assert (forall q a b, isDirty q = false -> fst (transform a b q) = q) as Hclean.
  { intros q a b Hq. unfold transform, updateTransform, bind, gets, ret.
    rewrite Hq. reflexivity. }
  assert (isDirty (fst (transform x y p)) = false) as Hd.
  { destruct (isDirty p) eqn:Hp; [|rewrite Hclean; assumption].
    unfold transform, updateTransform, bind, gets, ret. rewrite Hp. simpl.
    unfold modify. rewrite forEach_modify. reflexivity. }
  split; [exact Hd|apply Hclean, Hd].
Qed.

(** X6. Transforms nest by adding up: after a push that parses, a point
    is moved by the offsets in force before the push plus the fifth and
    sixth coefficients of the new record. *)
Theorem push_adds_its_translation (cs : list transformCall) (s : string)
    (record : list float) (x y : float) :
  parseTransform s = Ok record ->
  snd (transform x y (fst (pushTransform s (afterCalls cs)))) =
  Ok ((x + (sumE (transformStack (afterCalls cs)) + coefficient record 4))%float,
      (y - (sumF (transformStack (afterCalls cs)) + coefficient record 5))%float,
      0%float).
Proof.
  intros Hp.
  rewrite (transform_spec _ x y (cacheOk_push s (afterCalls cs))). simpl.
  rewrite pushTransform_stack, Hp, sumE_app, sumF_app. reflexivity.
Qed.

Lemma push_adds_its_translation_witness :
  snd (transform 1 2 (fst (pushTransform "matrix(2,0,0,2,5,7)"
                             (afterCalls [PushTransform "matrix(1,0,0,1,10,20)"])))) =
  Ok ((1 + (10 + 5))%float, (2 - (20 + 7))%float, 0%float).
Proof.
  apply (push_adds_its_translation [PushTransform "matrix(1,0,0,1,10,20)"]
           "matrix(2,0,0,2,5,7)" [2; 0; 0; 2; 5; 7]%float 1 2).
  vm_compute. reflexivity.
Defined.

(* ===================================================================== *)
(** * More on ingestion *)
(* ===================================================================== *)

Section PreservationFacts.
Context `{Collaborators}.
Context {I : Renderer -> Prop}.

Lemma preserves_ret {A} (a : A) : preserves I (ret a).
Proof. intros st Hst. exact Hst. Qed.

Lemma preserves_throw {A} (e : error) : preserves I (throw (A := A) e).
Proof. intros st Hst. exact Hst. Qed.

Lemma preserves_gets {A} (f : Renderer -> A) : preserves I (gets f).
Proof. intros st Hst. exact Hst. Qed.

Lemma preserves_liftResult {A} (r : result A) : preserves I (liftResult r).
Proof. intros st Hst. exact Hst. Qed.

Lemma preserves_modify (f : Renderer -> Renderer) :
  (forall st, I st -> I (f st)) -> preserves I (modify f).
Proof. intros Hf st Hst. apply Hf, Hst. Qed.

Lemma preserves_bind {A B} (m : M Renderer A) (k : A -> M Renderer B) :
  preserves I m -> (forall a, preserves I (k a)) -> preserves I (bind m k).
Proof.
  intros Hm Hk st Hst. unfold bind. specialize (Hm st Hst).
  destruct (m st) as [st' [a|e]]; simpl in *; [apply Hk, Hm|exact Hm].
Qed.

Lemma preserves_mapM {A B} (f : A -> M Renderer B) (xs : list A) :
  (forall x, preserves I (f x)) -> preserves I (mapM f xs).
Proof.
  intros Hf. induction xs as [|x xs IH]; simpl; [apply preserves_ret|].
  apply preserves_bind; [apply Hf|]. intros y.
  apply preserves_bind; [apply IH|]. intros ys. apply preserves_ret.
Qed.

Lemma preserves_onTransform {A} (m : M TransformParser A) :
  (forall st, I st -> I (setCurrentTransform (fst (m (currentTransform st))) st)) ->
  preserves I (onTransform m).
Proof.
  intros Hm st Hst. unfold onTransform. specialize (Hm st Hst).
  destruct (m (currentTransform st)) as [p r]. exact Hm.
Qed.

End PreservationFacts.

Ltac preserve_step :=
  first
    [ apply preserves_ret | apply preserves_throw | apply preserves_gets
    | apply preserves_liftResult
    | apply preserves_mapM; intros
    | apply preserves_bind; [|intros]
    | match goal with
      | |- preserves _ (match ?x with _ => _ end) => destruct x
      end ].

Section MoreIngestionFacts.
Context `{Collaborators}.

Lemma ingest_snoc (evs : list event) (ev : event) (st : Renderer) :
  ingest (evs ++ [ev]) st = fst (handle ev (ingest evs st)).
Proof. unfold ingest. rewrite fold_left_app. reflexivity. Qed.

Lemma reachable_step (ev : event) (st : Renderer) :
  reachable st -> reachable (fst (handle ev st)).
Proof. intros (evs & ->). exists (evs ++ [ev]). symmetry. apply ingest_snoc. Qed.

Lemma reachable_ingest (evs : list event) (st : Renderer) :
  reachable st -> reachable (ingest evs st).
Proof.
  revert st. induction evs as [|ev evs IH]; intros st Hr; simpl; [exact Hr|].
  apply IH, reachable_step, Hr.
Qed.

(** What a circle has to carry for [addNode] to return, and the state
    it leaves then. *)
Lemma addNode_outcome (el : Element) (st : Renderer) :
  (exists e, addNode el st = (st, Throw e))
  \/ (exists x cy r c vb,
        getNumericAttribute el "cx" = Ok x
        /\ getNumericAttribute el "cy" = Ok cy
        /\ getNumericAttribute el "r" = Ok r
        /\ viewBox st = Some vb
        /\ nodeNameToUI st !! nodeNameOf el = None
        /\ getTextAttribute (parent el) "id" = Ok c
        /\ addNode el st =
           (let t := transform x (ViewBox.height vb + ViewBox.top vb - cy)%float
                       (currentTransform st) in
            match snd t with
            | Ok position =>
                (registerUI {| UI.componentId := c; UI.position := position;
                               UI.color := 3705462015; UI.size := (r * 2)%float;
                               UI.id := length (positions st);
                               UI.name := nodeNameOf el |}
                   (setCurrentTransform (fst t) (addToComponent c (nodeNameOf el) st)),
                 Ok tt)
            | Throw e => (setCurrentTransform (fst t) (addToComponent c (nodeNameOf el) st),
                          Throw e)
            end)).
Proof.
  cbv [addNode transformY bind liftResult gets modify throw ret].
  destruct (getNumericAttribute el "cx") as [x|e]; [|eauto].
  destruct (getNumericAttribute el "cy") as [cy|e]; [|eauto].
  destruct (viewBox st) as [vb|]; [|eauto].
  destruct (getNumericAttribute el "r") as [r|e]; [|eauto].
  assert (getTextAttribute (Some el) "id" = Ok (default ""%string (attributes el !! "id")))
    as -> by (unfold getTextAttribute; destruct (attributes el !! "id"); reflexivity).
  fold (nodeNameOf el).
  destruct (nodeNameToUI st !! nodeNameOf el) as [known|] eqn:Ek; [eauto|].
  destruct (getTextAttribute (parent el) "id") as [c|e]; [|eauto].
  right. exists x, cy, r, c, vb. repeat (split; [reflexivity|]).
  unfold onTransform. simpl.
  destruct (transform x (ViewBox.height vb + ViewBox.top vb - cy)%float (currentTransform st))
    as [p' [pos|e]]; reflexivity.
Qed.

(** A handler leaves the node indices alone or appends one record under
    a free name, with the next place as its [id]. *)
Lemma handle_indices (ev : event) (st : Renderer) :
  sameIndex st (fst (handle ev st))
  \/ exists ui p,
       nodeNameToUI st !! UI.name ui = None
       /\ UI.id ui = length (positions st)
       /\ fst (handle ev st) =
          registerUI ui
            (setCurrentTransform p (addToComponent (UI.componentId ui) (UI.name ui) st)).
Proof.
  destruct ev as [el|el]; simpl.
  - unfold handleElementStart.
    destruct (String.eqb (tagName el) "svg").
    { left. destruct (viewBoxArr el) as [|l [|t [|w [|h [|x xs]]]]]; repeat split. }
    destruct (String.eqb (tagName el) "path"); [left; apply frames_addBorder|].
    destruct (String.eqb (tagName el) "circle").
    { destruct (addNode_outcome el st)
        as [(e & ->)|(x & cy & r & c & vb & _ & _ & _ & _ & Hn & _ & ->)];
        [left; apply sameIndex_refl|].
      destruct (transform_total x (ViewBox.height vb + ViewBox.top vb - cy)%float
                  (currentTransform st)) as (p' & pos & ->). simpl.
      right.
      exists {| UI.componentId := c; UI.position := pos; UI.color := 3705462015;
                UI.size := (r * 2)%float; UI.id := length (positions st);
                UI.name := nodeNameOf el |}, p'.
      split; [exact Hn|]. split; reflexivity. }
    left. destruct (truthy (attributes el !! "transform")); [|apply sameIndex_refl].
    apply frames_onTransform.
  - left. unfold handleElementEnd.
    destruct (truthy (attributes el !! "transform")); [|apply sameIndex_refl].
    apply frames_onTransform.
Qed.

Lemma preserves_cache_handle (ev : event) :
  preserves (fun st => cacheOk (currentTransform st)) (handle ev).
Proof.
  destruct ev as [el|el]; simpl.
  - unfold handleElementStart, addBorder, parseBorder, addNode, transformY.
    destruct (String.eqb (tagName el) "svg").
    { destruct (viewBoxArr el) as [|l [|t [|w [|h [|x xs]]]]];
        first [apply preserves_throw | apply preserves_modify; intros st Hst; exact Hst]. }
    destruct (String.eqb (tagName el) "path").
    { repeat preserve_step;
        first [ apply preserves_modify; intros st Hst; exact Hst
              | apply preserves_onTransform; intros st Hst; apply cacheOk_transform, Hst ]. }
    destruct (String.eqb (tagName el) "circle").
    { repeat preserve_step;
        first [ apply preserves_modify; intros st Hst; exact Hst
              | apply preserves_onTransform; intros st Hst; apply cacheOk_transform, Hst ]. }
    destruct (truthy (attributes el !! "transform")); [|apply preserves_ret].
    apply preserves_onTransform. intros st Hst. apply cacheOk_push.
  - unfold handleElementEnd.
    destruct (truthy (attributes el !! "transform")); [|apply preserves_ret].
    apply preserves_onTransform. intros st Hst. apply cacheOk_pop, Hst.
Qed.

Lemma setAdd_NoDup (x : string) (s : list string) : NoDup s -> NoDup (setAdd x s).
Proof.
  intros Hs. unfold setAdd. destruct (setHas x s) eqn:E; [exact Hs|].
  apply NoDup_app. split; [exact Hs|]. split; [|apply NoDup_singleton].
  intros y Hy Hin. apply list_elem_of_singleton in Hin. subst y.
  apply setHas_true in Hy. congruence.
Qed.

Lemma consistent_create : consistent createStreamingSVGRenderer.
Proof.
  split; simpl.
  - intros i ui Hl. destruct i; discriminate Hl.
  - intros n ui Hl. rewrite lookup_empty in Hl. discriminate.
  - reflexivity.
  - intros c members Hl. rewrite lookup_empty in Hl. discriminate.
  - intros c members n Hl. rewrite lookup_empty in Hl. discriminate.
  - apply cacheOk_create.
Qed.

Lemma consistent_handle (ev : event) (st : Renderer) :
  consistent st -> consistent (fst (handle ev st)).
Proof.
  intros C. pose proof (preserves_cache_handle ev st (cache_ok st C)) as Hcache.
  destruct (handle_indices ev st) as [(Hp & Hn & Hc)|(ui & p & Hfree & Hid & Hst)].
  - destruct C as [C1 C2 C3 C4 C5 C6].
    split; rewrite ?Hp, ?Hn, ?Hc; assumption.
  - revert Hcache. rewrite Hst. intros Hcache. split; simpl.
    + intros i u Hl. destruct (decide (i < length (positions st))%nat) as [Hlt|Hge].
      * rewrite lookup_app_l in Hl by exact Hlt. apply (ids_are_places st C i u Hl).
      * rewrite lookup_app_r in Hl by lia.
        destruct (i - length (positions st))%nat as [|k] eqn:Hk; [|destruct k; discriminate].
        injection Hl as <-. lia.
    + intros n u Hl. destruct (decide (UI.name ui = n)) as [Heq|Hne].
      * subst n. rewrite lookup_insert_eq in Hl. injection Hl as <-. reflexivity.
      * rewrite lookup_insert_ne in Hl by exact Hne. apply (names_are_keys st C n u Hl).
    + rewrite map_size_insert_None by exact Hfree.
      rewrite (one_entry_per_record st C), length_app. simpl. lia.
    + intros c members Hl.
      destruct (decide (UI.componentId ui = c)) as [Heq|Hne].
      * subst c. rewrite lookup_insert_eq in Hl. injection Hl as <-.
        apply setAdd_NoDup.
        destruct (nodesByComponent st !! UI.componentId ui) as [old|] eqn:Hold; simpl.
        -- apply (members_distinct st C _ old Hold).
        -- constructor.
      * rewrite lookup_insert_ne in Hl by exact Hne.
        apply (members_distinct st C c members Hl).
    + assert (forall c members n,
                nodesByComponent st !! c = Some members -> n ∈ members ->
                exists u, <[UI.name ui := ui]> (nodeNameToUI st) !! n = Some u
                          /\ UI.componentId u = c) as Hold.
      { intros c members n Hl Hin.
        destruct (members_registered st C c members n Hl Hin) as (u & Hu & Hcu).
        exists u. split; [|exact Hcu]. rewrite lookup_insert_ne; [exact Hu|].
        intros Heq. rewrite Heq, Hu in Hfree. discriminate. }
      intros c members n Hl Hin.
      destruct (decide (UI.componentId ui = c)) as [Heq|Hne].
      * subst c. rewrite lookup_insert_eq in Hl. injection Hl as <-.
        apply setAdd_elem in Hin as [->|Hin].
        -- exists ui. split; [apply lookup_insert_eq|reflexivity].
        -- destruct (nodesByComponent st !! UI.componentId ui) as [old|] eqn:Hl0;
             simpl in Hin; [|inversion Hin].
           apply (Hold _ old n Hl0 Hin).
      * rewrite lookup_insert_ne in Hl by exact Hne. apply (Hold c members n Hl Hin).
    + exact Hcache.
Qed.

Lemma consistent_ingest (evs : list event) (st : Renderer) :
  consistent st -> consistent (ingest evs st).
Proof.
  revert st. induction evs as [|ev evs IH]; intros st C; simpl; [exact C|].
  apply IH, consistent_handle, C.
Qed.

Lemma reachable_consistent (st : Renderer) : reachable st -> consistent st.
Proof. intros (evs & ->). apply consistent_ingest, consistent_create. Qed.

End MoreIngestionFacts.

Section IngestionProperties.
Context `{Collaborators}.

Lemma getTextAttribute_present (el : Element) (name : string) :
  getTextAttribute (Some el) name = Ok (default ""%string (attributes el !! name)).
Proof. unfold getTextAttribute. destruct (attributes el !! name); reflexivity. Qed.

(** [addNode] on a circle that has all it needs. *)
Lemma addNode_success (el pel : Element) (st : Renderer) (x cy r : float) (vb : ViewBox.t) :
  getNumericAttribute el "cx" = Ok x ->
  getNumericAttribute el "cy" = Ok cy ->
  getNumericAttribute el "r" = Ok r ->
  viewBox st = Some vb ->
  nodeNameToUI st !! nodeNameOf el = None ->
  parent el = Some pel ->
  exists p' position,
    transform x (ViewBox.height vb + ViewBox.top vb - cy)%float (currentTransform st)
    = (p', Ok position)
    /\ addNode el st =
       (registerUI {| UI.componentId := default ""%string (attributes pel !! "id");
                      UI.position := position;
                      UI.color := 3705462015; UI.size := (r * 2)%float;
                      UI.id := length (positions st);
                      UI.name := nodeNameOf el |}
          (setCurrentTransform p'
             (addToComponent (default ""%string (attributes pel !! "id"))
                (nodeNameOf el) st)), Ok tt).
Proof.
  intros Hx Hy Hr Hv Hfree Hp.
  destruct (transform_total x (ViewBox.height vb + ViewBox.top vb - cy)%float
              (currentTransform st)) as (p' & pos & Ht).
  exists p', pos. split; [exact Ht|].
  cbv [addNode transformY bind liftResult gets modify throw ret].
  rewrite Hx, Hy, Hv, Hr, getTextAttribute_present. fold (nodeNameOf el).
  rewrite Hfree, Hp, getTextAttribute_present.
  unfold onTransform. simpl. rewrite Ht. reflexivity.
Qed.

Lemma preserves_viewBox_handle (ev : event) (b : option ViewBox.t) :
  startsSvg ev = false -> preserves (fun st => viewBox st = b) (handle ev).
Proof.
  destruct ev as [el|el]; simpl; intros Hs.
  - unfold handleElementStart, addBorder, parseBorder, addNode, transformY. rewrite Hs.
    destruct (String.eqb (tagName el) "path").
    { repeat preserve_step;
        first [ apply preserves_modify; intros st Hst; exact Hst
              | apply preserves_onTransform; intros st Hst; exact Hst ]. }
    destruct (String.eqb (tagName el) "circle").
    { repeat preserve_step;
        first [ apply preserves_modify; intros st Hst; exact Hst
              | apply preserves_onTransform; intros st Hst; exact Hst ]. }
    destruct (truthy (attributes el !! "transform")); [|apply preserves_ret].
    apply preserves_onTransform. intros st Hst. exact Hst.
  - unfold handleElementEnd.
    destruct (truthy (attributes el !! "transform")); [|apply preserves_ret].
    apply preserves_onTransform. intros st Hst. exact Hst.
Qed.

Lemma viewBox_stays_set_handle (ev : event) (st : Renderer) :
  is_Some (viewBox st) -> is_Some (viewBox (fst (handle ev st))).
Proof.
  intros Hv. destruct (startsSvg ev) eqn:Hs.
  - destruct ev as [el|el]; [|discriminate]. simpl in *.
    unfold handleElementStart. rewrite Hs.
    destruct (viewBoxArr el) as [|l [|t [|w [|h [|x xs]]]]]; simpl; eauto.
  - rewrite (preserves_viewBox_handle ev (viewBox st) Hs st eq_refl). exact Hv.
Qed.

Lemma preserves_stack_drawn (el : Element) (b : list (list float)) :
  isDrawn el = true -> preserves (fun st => stackOf st = b) (handleElementStart el).
Proof.
  unfold isDrawn, handleElementStart, addBorder, parseBorder, addNode, transformY.
  intros Hd.
  destruct (String.eqb (tagName el) "svg").
  { destruct (viewBoxArr el) as [|l [|t [|w [|h [|x xs]]]]];
      first [apply preserves_throw | apply preserves_modify; intros st Hst; exact Hst]. }
  destruct (String.eqb (tagName el) "path").
  { repeat preserve_step;
      first [ apply preserves_modify; intros st Hst; exact Hst
            | apply preserves_onTransform; intros st Hst; unfold stackOf in *; simpl;
              rewrite transform_stack_any; exact Hst ]. }
  destruct (String.eqb (tagName el) "circle"); [|discriminate].
  repeat preserve_step;
    first [ apply preserves_modify; intros st Hst; exact Hst
          | apply preserves_onTransform; intros st Hst; unfold stackOf in *; simpl;
            rewrite transform_stack_any; exact Hst ].
Qed.

Lemma handleElementEnd_pops (el : Element) (st : Renderer) (t : string) :
  truthy (attributes el !! "transform") = Some t ->
  stackOf (fst (handleElementEnd el st)) = removelast (stackOf st)
  /\ snd (handleElementEnd el st) =
     match stackOf st with
     | [] => Throw UnbalancedTransformStack
     | _ :: _ => Ok tt
     end.
Proof.
  intros Ht. unfold handleElementEnd, onTransform, stackOf. rewrite Ht.
  pose proof (popTransform_stack (currentTransform st)) as Hst.
  unfold popTransform, bind, gets, modify, throw in *.
  destruct (transformStack (currentTransform st)) as [|r0 stack] eqn:E; simpl in *.
  - split; [exact E|reflexivity].
  - split; reflexivity.
Qed.

Lemma handleElementStart_group (el : Element) (st : Renderer) :
  isDrawn el = false ->
  handleElementStart el st =
  match truthy (attributes el !! "transform") with
  | Some transform => onTransform (pushTransform transform) st
  | None => (st, Ok tt)
  end.
Proof.
  unfold isDrawn, handleElementStart. intros Hd.
  apply orb_false_iff in Hd as [Hd Hc]. apply orb_false_iff in Hd as [Hs Hp].
  rewrite Hs, Hp, Hc. destruct (truthy (attributes el !! "transform")); reflexivity.
Qed.

(** With a view box, the points of a path are all resolved and only the
    transform parser can have changed. *)
Lemma resolvePoint_with_viewBox (st : Renderer) (p0 : TransformParser) (vb : ViewBox.t)
    (xy : float * float) :
  viewBox st = Some vb ->
  exists p1 point,
    (y' <- transformY (snd xy) ;;
     q <- onTransform (transform (fst xy) y') ;;
     ret (fst (fst q), snd (fst q))) (setCurrentTransform p0 st)
    = (setCurrentTransform p1 st, Ok point).
Proof.
  intros Hv. cbv [bind transformY gets ret onTransform]. simpl. rewrite Hv.
  change (currentTransform (setCurrentTransform p0 st)) with p0.
  destruct (transform_total (fst xy)
              (ViewBox.height vb + ViewBox.top vb - snd xy)%float p0)
    as (p1 & pos & ->).
  eexists p1, _. reflexivity.
Qed.

Lemma parseBorder_with_viewBox (el : Element) (st : Renderer) (vb : ViewBox.t) :
  viewBox st = Some vb ->
  exists p points,
    parseBorder el st =
    (setCurrentTransform p st, Ok (points, hexColor (getElementFillColor el))).
Proof.
  intros Hv. unfold parseBorder.
  assert (forall pts p0,
            exists p points,
              mapM (fun xy : float * float =>
                      y' <- transformY (snd xy) ;;
                      q <- onTransform (transform (fst xy) y') ;;
                      ret (fst (fst q), snd (fst q))) pts (setCurrentTransform p0 st)
              = (setCurrentTransform p st, Ok points)) as Hmap.
  { induction pts as [|xy pts IH]; intros p0; simpl.
    - exists p0, []. reflexivity.
    - unfold bind at 1.
      destruct (resolvePoint_with_viewBox st p0 vb xy Hv) as (p1 & point & ->).
      unfold bind at 1.
      destruct (IH p1) as (p2 & points & ->).
      eexists p2, _. reflexivity. }
  destruct (Hmap (getPointsFromPathData (attributes el !! "d")) (currentTransform st))
    as (p & points & Hrun).
  assert (setCurrentTransform (currentTransform st) st = st) as Hst
    by (destruct st; reflexivity).
  rewrite Hst in Hrun.
  exists p, points. unfold bind at 1. rewrite Hrun. reflexivity.
Qed.

End IngestionProperties.

(** X7. [getNumericAttribute] returns finite numbers only, read with
    [parseFloat] from an attribute the element has: a missing attribute, a
    word or an infinity makes it throw. *)
Theorem numeric_attribute_is_finite (el : Element) (name : string) (v : float) :
  getNumericAttribute el name = Ok v ->
  JS.isFinite v = true
  /\ exists raw, attributes el !! name = Some raw /\ JS.parseFloat raw = v.
Proof.
  unfold getNumericAttribute.
  destruct (attributes el !! name) as [raw|]; simpl.
  - destruct (JS.isFinite (JS.parseFloat raw)) eqn:E; simpl; [|discriminate].
    intros [= <-]. split; [exact E|]. exists raw. split; reflexivity.
  - change (JS.isFinite JS.NaN) with false. discriminate.
Qed.

Lemma numeric_attribute_is_finite_witness :
  JS.isFinite 7 = true
  /\ exists raw, attributes (circleElement "c" "_z" "7" "8" "9") !! "cx" = Some raw
                 /\ JS.parseFloat raw = 7%float.
Proof.
  apply (numeric_attribute_is_finite (circleElement "c" "_z" "7" "8" "9") "cx" 7).
  vm_compute. reflexivity.
Defined.

(** X8. A circle that [handleElementStart] refuses leaves no trace:
    whatever the exception, the whole state is the one before the call. *)
Theorem rejected_circle_changes_nothing `{Collaborators} (el : Element) (st : Renderer)
    (e : error) :
  tagName el = "circle" ->
  snd (handleElementStart el st) = Throw e ->
  fst (handleElementStart el st) = st.
Proof.
  intros Ht. rewrite (handleElementStart_circle el Ht).
  destruct (addNode_outcome el st)
    as [(e' & ->)|(x & cy & r & c & vb & _ & _ & _ & _ & _ & _ & ->)]; [reflexivity|].
  destruct (transform_total x (ViewBox.height vb + ViewBox.top vb - cy)%float
              (currentTransform st)) as (p' & pos & ->).
  simpl. discriminate.
Qed.

Lemma rejected_circle_changes_nothing_witness :
  fst (handleElementStart (H := sampleCollaborators)
         (circleElement "c" "b" "x" "8" "9") namesSample) = namesSample.
Proof.
  apply (rejected_circle_changes_nothing (H := sampleCollaborators)
           (circleElement "c" "b" "x" "8" "9") namesSample
           (InvalidNumericAttribute "circle" "cx")).
  - reflexivity.
  - vm_compute. reflexivity.
Defined.

(** X9. [handleElementStart] accepts a circle exactly when its [cx],
    [cy] and [r] are finite numbers, the view box is set, its name is not
    registered yet and it has a parent element. *)
Theorem circle_is_ingested_iff `{Collaborators} (el : Element) (st : Renderer) :
  tagName el = "circle" ->
  snd (handleElementStart el st) = Ok tt <->
  isOk (getNumericAttribute el "cx") = true
  /\ isOk (getNumericAttribute el "cy") = true
  /\ isOk (getNumericAttribute el "r") = true
  /\ is_Some (viewBox st)
  /\ nodeNameToUI st !! nodeNameOf el = None
  /\ is_Some (parent el).
Proof.
  intros Ht. rewrite (handleElementStart_circle el Ht). split.
  - destruct (addNode_outcome el st)
      as [(e' & ->)|(x & cy & r & c & vb & Hx & Hy & Hr & Hv & Hn & Hc & _)];
      [discriminate|].
    intros _. rewrite Hx, Hy, Hr, Hv. repeat split; eauto.
    unfold getTextAttribute in Hc. destruct (parent el); [eauto|discriminate].
  - intros (Hx & Hy & Hr & [vb Hv] & Hn & [pel Hp]).
    destruct (getNumericAttribute el "cx") as [x|] eqn:Ex; [|discriminate].
    destruct (getNumericAttribute el "cy") as [cy|] eqn:Ey; [|discriminate].
    destruct (getNumericAttribute el "r") as [r|] eqn:Er; [|discriminate].
    destruct (addNode_success el pel st x cy r vb Ex Ey Er Hv Hn Hp)
      as (p' & pos & _ & ->).
    reflexivity.
Qed.

Lemma circle_is_ingested_iff_witness :
  snd (handleElementStart (H := sampleCollaborators)
         (circleElement "c" "_z" "7" "8" "9") namesSample) = Ok tt <->
  isOk (getNumericAttribute (circleElement "c" "_z" "7" "8" "9") "cx") = true
  /\ isOk (getNumericAttribute (circleElement "c" "_z" "7" "8" "9") "cy") = true
  /\ isOk (getNumericAttribute (circleElement "c" "_z" "7" "8" "9") "r") = true
  /\ is_Some (viewBox namesSample)
  /\ nodeNameToUI namesSample !! nodeNameOf (circleElement "c" "_z" "7" "8" "9") = None
  /\ is_Some (parent (circleElement "c" "_z" "7" "8" "9")).
Proof.
  apply (circle_is_ingested_iff (H := sampleCollaborators)
           (circleElement "c" "_z" "7" "8" "9") namesSample).
  reflexivity.
Defined.

(** X10. The record of an accepted circle: in a state the handlers can
    reach, the circle is appended to [positions] and registered under its
    name with the [id] of its parent as component, the next place as [id],
    twice its radius as size, and the position
    [(cx + Σe, (height + top - cy) - Σf, 0)], the sums being those of the
    transforms on the stack. *)
Theorem ingested_circle_record `{Collaborators} (el pel : Element) (st : Renderer)
    (x cy r : float) (vb : ViewBox.t) :
  reachable st ->
  tagName el = "circle" ->
  getNumericAttribute el "cx" = Ok x ->
  getNumericAttribute el "cy" = Ok cy ->
  getNumericAttribute el "r" = Ok r ->
  viewBox st = Some vb ->
  nodeNameToUI st !! nodeNameOf el = None ->
  parent el = Some pel ->
  let ui := {| UI.componentId := default ""%string (attributes pel !! "id");
               UI.position :=
                 ((x + sumE (stackOf st))%float,
                  (ViewBox.height vb + ViewBox.top vb - cy - sumF (stackOf st))%float,
                  0%float);
               UI.color := 0xdcdcdcff;
               UI.size := (r * 2)%float;
               UI.id := length (positions st);
               UI.name := nodeNameOf el |} in
  snd (handleElementStart el st) = Ok tt
  /\ positions (fst (handleElementStart el st)) = positions st ++ [ui]
  /\ nodeNameToUI (fst (handleElementStart el st)) !! nodeNameOf el = Some ui
  /\ stackOf (fst (handleElementStart el st)) = stackOf st.
Proof.
  intros Hreach Ht Hx Hy Hr Hv Hn Hp ui.
  rewrite (handleElementStart_circle el Ht).
  destruct (addNode_success el pel st x cy r vb Hx Hy Hr Hv Hn Hp)
    as (p' & pos & Htr & ->).
  pose proof (cache_ok st (reachable_consistent st Hreach)) as Hc.
  rewrite (transform_spec _ _ _ Hc) in Htr. injection Htr as <- <-.
  subst ui. unfold stackOf. simpl. rewrite lookup_insert_eq. repeat split.
Qed.

Lemma ingested_circle_record_witness :
  let ui := {| UI.componentId := "c";
               UI.position := ((7 + 0)%float, (1024 + 0 - 8 - 0)%float, 0%float);
               UI.color := 0xdcdcdcff;
               UI.size := (9 * 2)%float;
               UI.id := 2;
               UI.name := "z" |} in
  snd (handleElementStart (H := sampleCollaborators)
         (circleElement "c" "_z" "7" "8" "9") namesSample) = Ok tt
  /\ positions (fst (handleElementStart (H := sampleCollaborators)
                       (circleElement "c" "_z" "7" "8" "9") namesSample))
     = positions namesSample ++ [ui]
  /\ nodeNameToUI (fst (handleElementStart (H := sampleCollaborators)
                          (circleElement "c" "_z" "7" "8" "9") namesSample)) !! "z"
     = Some ui
  /\ stackOf (fst (handleElementStart (H := sampleCollaborators)
                     (circleElement "c" "_z" "7" "8" "9") namesSample))
     = stackOf namesSample.
Proof.
  apply (ingested_circle_record (H := sampleCollaborators)
           (circleElement "c" "_z" "7" "8" "9") (groupElement "c") namesSample
           7 8 9
           {| ViewBox.left := 0; ViewBox.top := 0;
              ViewBox.width := 1024; ViewBox.height := 1024 |});
    first [exact namesSample_reachable | vm_compute; reflexivity].
Defined.

(** X11. The [id] of a record is its place in [positions]: ids are
    given in the order of arrival, from 0 and without gaps. *)
Theorem record_id_is_its_place `{Collaborators} (st : Renderer) (i : nat) (ui : UI.t) :
  reachable st -> positions st !! i = Some ui -> UI.id ui = i.
Proof.
  intros Hreach. apply (ids_are_places st (reachable_consistent st Hreach)).
Qed.

Lemma record_id_is_its_place_witness :
  exists ui, positions namesSample !! 1%nat = Some ui /\ UI.id ui = 1%nat.
Proof.
  eexists. split; [vm_compute; reflexivity|].
  apply (record_id_is_its_place (H := sampleCollaborators) namesSample 1);
    [exact namesSample_reachable|vm_compute; reflexivity].
Defined.

(** X12. [nodesByComponent] is the partition of the nodes by parent:
    the members of a component are distinct, and a name is a member of the
    component [c] exactly when a record of [positions] has that name and
    the component [c]. *)
Theorem components_partition_names `{Collaborators} (st : Renderer) (c : string)
    (members : list string) :
  reachable st ->
  nodesByComponent st !! c = Some members ->
  NoDup members
  /\ forall n, n ∈ members <->
       exists ui, ui ∈ positions st /\ UI.name ui = n /\ UI.componentId ui = c.
Proof.
  intros Hreach Hm.
  pose proof (reachable_consistent st Hreach) as C.
  pose proof (reachable_indexed st Hreach) as I.
  split; [apply (members_distinct st C c members Hm)|].
  intros n. split.
  - intros Hin. destruct (members_registered st C c members n Hm Hin) as (ui & Hu & Hc).
    exists ui. split; [apply (registered_positions st I n ui Hu)|].
    split; [apply (names_are_keys st C n ui Hu)|exact Hc].
  - intros (ui & Hin & <- & <-).
    destruct (component_known st I ui Hin) as (members' & Hm' & Hhas).
    rewrite Hm in Hm'. injection Hm' as <-. apply setHas_true, Hhas.
Qed.

Lemma components_partition_names_witness :
  NoDup ["a"; "b"]
  /\ forall n, n ∈ ["a"; "b"] <->
       exists ui, ui ∈ positions namesSample /\ UI.name ui = n /\ UI.componentId ui = "c".
Proof.
  apply (components_partition_names (H := sampleCollaborators) namesSample "c" ["a"; "b"]);
    [exact namesSample_reachable|vm_compute; reflexivity].
Defined.

(** X13. The progress message counts the circles accepted so far:
    [nodeNameToUI] has one entry per record of [positions]. *)
Theorem loaded_message_counts_records `{Collaborators} (formatNumber : nat -> string)
    (st : Renderer) :
  reachable st ->
  getLoadedSubreddits formatNumber st =
  ("Loaded " ++ formatNumber (length (positions st)) ++ " subreddits...")%string.
Proof.
  intros Hreach. unfold getLoadedSubreddits.
  rewrite (one_entry_per_record st (reachable_consistent st Hreach)). reflexivity.
Qed.

Lemma loaded_message_counts_records_witness :
  getLoadedSubreddits (fun n => if (n =? 2)%nat then "2" else "?")%string namesSample =
  "Loaded 2 subreddits..."%string.
Proof.
  apply (loaded_message_counts_records (H := sampleCollaborators)
           (fun n => if (n =? 2)%nat then "2" else "?")%string namesSample).
  exact namesSample_reachable.
Defined.

(** X14. Only the start of an [svg] element writes the view box: every
    other event leaves it as it is, and no sequence of events unsets a view
    box that is set. *)
Theorem view_box_stays_set `{Collaborators} (ev : event) (evs : list event)
    (st : Renderer) (vb : ViewBox.t) :
  viewBox st = Some vb ->
  startsSvg ev = false ->
  viewBox (fst (handle ev st)) = Some vb
  /\ is_Some (viewBox (ingest evs st)).
Proof.
  intros Hv Hs. split.
  - apply (preserves_viewBox_handle ev (Some vb) Hs st Hv).
  - assert (is_Some (viewBox st)) as Hsome by eauto. clear Hv.
    revert st Hsome. induction evs as [|e evs IH]; intros st Hsome; simpl; [exact Hsome|].
    apply IH, viewBox_stays_set_handle, Hsome.
Qed.

Lemma view_box_stays_set_witness :
  viewBox (fst (handle (H := sampleCollaborators)
                  (ElementStart (circleElement "c" "_z" "7" "8" "9")) namesSample))
  = Some {| ViewBox.left := 0; ViewBox.top := 0;
            ViewBox.width := 1024; ViewBox.height := 1024 |}
  /\ is_Some (viewBox (ingest (H := sampleCollaborators)
                         [ElementStart (svgElement (Some "one two"));
                          ElementEnd (svgElement None)] namesSample)).
Proof.
  apply (view_box_stays_set (H := sampleCollaborators)
           (ElementStart (circleElement "c" "_z" "7" "8" "9"))
           [ElementStart (svgElement (Some "one two")); ElementEnd (svgElement None)]
           namesSample); vm_compute; reflexivity.
Defined.

(** X15. The start of an [svg], [path] or [circle] element never pushes
    its [transform] attribute, but the end of that element pops: it takes
    the transform of the enclosing element off the stack, or throws
    [UnbalancedTransformStack] when the stack is empty. *)
Theorem end_pops_what_start_never_pushed `{Collaborators} (el : Element) (st : Renderer)
    (t : string) :
  isDrawn el = true ->
  truthy (attributes el !! "transform") = Some t ->
  stackOf (fst (handleElementStart el st)) = stackOf st
  /\ stackOf (fst (handleElementEnd el (fst (handleElementStart el st))))
     = removelast (stackOf st)
  /\ snd (handleElementEnd el (fst (handleElementStart el st))) =
     match stackOf st with
     | [] => Throw UnbalancedTransformStack
     | _ :: _ => Ok tt
     end.
Proof.
  intros Hd Ht.
  pose proof (preserves_stack_drawn el (stackOf st) Hd st eq_refl) as Hst.
  destruct (handleElementEnd_pops el (fst (handleElementStart el st)) t Ht) as [Hpop Hres].
  rewrite Hst in Hpop, Hres. split; [exact Hst|]. split; assumption.
Qed.

Lemma end_pops_what_start_never_pushed_witness :
  stackOf (fst (handleElementStart (H := sampleCollaborators)
                  (transformedElement "circle" "matrix(1,0,0,1,1,1)") nestedSample))
  = stackOf nestedSample
  /\ stackOf (fst (handleElementEnd
                     (transformedElement "circle" "matrix(1,0,0,1,1,1)")
                     (fst (handleElementStart (H := sampleCollaborators)
                             (transformedElement "circle" "matrix(1,0,0,1,1,1)")
                             nestedSample))))
     = []
  /\ snd (handleElementEnd
            (transformedElement "circle" "matrix(1,0,0,1,1,1)")
            (fst (handleElementStart (H := sampleCollaborators)
                    (transformedElement "circle" "matrix(1,0,0,1,1,1)") nestedSample)))
     = Ok tt.
Proof.
  apply (end_pops_what_start_never_pushed (H := sampleCollaborators)
           (transformedElement "circle" "matrix(1,0,0,1,1,1)") nestedSample
           "matrix(1,0,0,1,1,1)"); vm_compute; reflexivity.
Defined.

(** X16. For any other element whose [transform] attribute parses, start
    and end are a round trip: the start pushes the parsed record, the end
    pops it, both return, and the stack is the one before the element. *)
Theorem group_transform_round_trip `{Collaborators} (el : Element) (st : Renderer)
    (t : string) (record : list float) :
  isDrawn el = false ->
  truthy (attributes el !! "transform") = Some t ->
  parseTransform t = Ok record ->
  snd (handleElementStart el st) = Ok tt
  /\ stackOf (fst (handleElementStart el st)) = stackOf st ++ [record]
  /\ snd (handleElementEnd el (fst (handleElementStart el st))) = Ok tt
  /\ stackOf (fst (handleElementEnd el (fst (handleElementStart el st)))) = stackOf st.
Proof.
  intros Hd Ht Hp.
  assert (snd (handleElementStart el st) = Ok tt
          /\ stackOf (fst (handleElementStart el st)) = stackOf st ++ [record])
    as [Hok Hst].
  { rewrite (handleElementStart_group el st Hd), Ht.
    pose proof (pushTransform_stack t (currentTransform st)) as Hpush.
    unfold onTransform, stackOf. rewrite Hp in Hpush.
    unfold pushTransform, bind, modify, liftResult in *. simpl in *. rewrite Hp in *.
    split; [reflexivity|exact Hpush]. }
  destruct (handleElementEnd_pops el (fst (handleElementStart el st)) t Ht) as [Hpop Hres].
  rewrite Hst in Hpop, Hres. rewrite removelast_last in Hpop.
  split; [exact Hok|]. split; [exact Hst|]. split; [|exact Hpop].
  rewrite Hres. destruct (stackOf st); reflexivity.
Qed.

Lemma group_transform_round_trip_witness :
  snd (handleElementStart (H := sampleCollaborators)
         (transformedElement "g" "matrix(1,0,0,1,1,1)") nestedSample) = Ok tt
  /\ stackOf (fst (handleElementStart (H := sampleCollaborators)
                     (transformedElement "g" "matrix(1,0,0,1,1,1)") nestedSample))
     = stackOf nestedSample ++ [[1; 0; 0; 1; 1; 1]%float]
  /\ snd (handleElementEnd (transformedElement "g" "matrix(1,0,0,1,1,1)")
            (fst (handleElementStart (H := sampleCollaborators)
                    (transformedElement "g" "matrix(1,0,0,1,1,1)") nestedSample)))
     = Ok tt
  /\ stackOf (fst (handleElementEnd (transformedElement "g" "matrix(1,0,0,1,1,1)")
                     (fst (handleElementStart (H := sampleCollaborators)
                             (transformedElement "g" "matrix(1,0,0,1,1,1)")
                             nestedSample))))
     = stackOf nestedSample.
Proof.
  apply (group_transform_round_trip (H := sampleCollaborators)
           (transformedElement "g" "matrix(1,0,0,1,1,1)") nestedSample
           "matrix(1,0,0,1,1,1)" [1; 0; 0; 1; 1; 1]%float); vm_compute; reflexivity.
Defined.

(** X17. A path with an [id], met once the view box is set, registers
    under that [id] without its first character the fill colour of the
    path and its complementary colour, and changes nothing else but the
    cache of the transform parser. *)
Theorem border_registers_cluster_colours `{Collaborators} (el : Element) (st : Renderer)
    (id : string) (vb : ViewBox.t) :
  tagName el = "path" ->
  attributes el !! "id" = Some id ->
  viewBox st = Some vb ->
  snd (handleElementStart el st) = Ok tt
  /\ clusterColors (fst (handleElementStart el st)) !! JS.substr1 id
     = Some (hexColor (getElementFillColor el))
  /\ complimentaryColor (fst (handleElementStart el st)) !! JS.substr1 id
     = Some (getComplimentaryColor (hexColor (getElementFillColor el)) None None)
  /\ sameIndex st (fst (handleElementStart el st))
  /\ viewBox (fst (handleElementStart el st)) = Some vb
  /\ stackOf (fst (handleElementStart el st)) = stackOf st.
Proof.
  intros Ht Hid Hv.
  assert (handleElementStart el = addBorder el) as ->.
  { unfold handleElementStart. rewrite Ht. reflexivity. }
  assert (isDrawn el = true) as Hd by (unfold isDrawn; rewrite Ht; reflexivity).
  pose proof (preserves_stack_drawn el (stackOf st) Hd st eq_refl) as Hstack.
  unfold handleElementStart in Hstack. rewrite Ht in Hstack. simpl in Hstack.
  destruct (parseBorder_with_viewBox el st vb Hv) as (p & points & Hrun).
  assert (addBorder el st =
          (setClusterColors (JS.substr1 id) (hexColor (getElementFillColor el))
             (getComplimentaryColor (hexColor (getElementFillColor el)) None None)
             (setCurrentTransform p st), Ok tt)) as Hadd.
  { unfold addBorder. unfold bind at 1. rewrite Hrun, Hid. reflexivity. }
  rewrite Hadd in *. simpl in *. rewrite !lookup_insert_eq.
  repeat split; assumption.
Qed.

Lemma border_registers_cluster_colours_witness :
  snd (handleElementStart (H := sampleCollaborators)
         (pathElement "_c" "M0 0L20 0L20 20Z") namesSample) = Ok tt
  /\ clusterColors (fst (handleElementStart (H := sampleCollaborators)
                           (pathElement "_c" "M0 0L20 0L20 20Z") namesSample)) !! "c"
     = Some (hexColor [128; 128; 128]%float)
  /\ complimentaryColor (fst (handleElementStart (H := sampleCollaborators)
                                (pathElement "_c" "M0 0L20 0L20 20Z") namesSample)) !! "c"
     = Some (getComplimentaryColor (hexColor [128; 128; 128]%float) None None)
  /\ sameIndex namesSample
       (fst (handleElementStart (H := sampleCollaborators)
               (pathElement "_c" "M0 0L20 0L20 20Z") namesSample))
  /\ viewBox (fst (handleElementStart (H := sampleCollaborators)
                     (pathElement "_c" "M0 0L20 0L20 20Z") namesSample))
     = Some {| ViewBox.left := 0; ViewBox.top := 0;
               ViewBox.width := 1024; ViewBox.height := 1024 |}
  /\ stackOf (fst (handleElementStart (H := sampleCollaborators)
                     (pathElement "_c" "M0 0L20 0L20 20Z") namesSample))
     = stackOf namesSample.
Proof.
  apply (border_registers_cluster_colours (H := sampleCollaborators)
           (pathElement "_c" "M0 0L20 0L20 20Z") namesSample "_c"
           {| ViewBox.left := 0; ViewBox.top := 0;
              ViewBox.width := 1024; ViewBox.height := 1024 |});
    vm_compute; reflexivity.
Defined.

(* ===================================================================== *)
(** * More on the highlighted links *)
(* ===================================================================== *)

Section LinkShapeFacts.
Variables (st : Renderer) (graph : Graph.t) (ui : UI.t).
Variables (neighbors : list string) (secondaryLinkColor : option Z).

Lemma visitLink_emits (neighborId other : string) (v : Highlight.locals) :
  exists new : list Highlight.link,
    Highlight.linkUIs (fst (visitLink st ui neighbors secondaryLinkColor neighborId other v))
    = Highlight.linkUIs v ++ new
    /\ forall l, In l new -> linkBetween st ui neighbors secondaryLinkColor l neighborId other.
Proof.
  assert (exists new : list Highlight.link,
            Highlight.linkUIs v = Highlight.linkUIs v ++ new
            /\ forall l, In l new -> linkBetween st ui neighbors secondaryLinkColor l neighborId other) as Hskip.
  { exists []. rewrite app_nil_r. split; [reflexivity|]. intros l []. }
  cbv [visitLink positionOf bind gets modify ret throw].
  destruct (setHas other neighbors) eqn:Hin; simpl; [|exact Hskip].
  destruct ((maxLinks <? Highlight.idx v) &&
            negb (String.eqb neighborId (UI.name ui) || String.eqb other (UI.name ui)));
    simpl; [exact Hskip|].
  destruct (nodeNameToUI st !! neighborId) as [ua|] eqn:Ha; [|exact Hskip].
  destruct (nodeNameToUI st !! other) as [ub|] eqn:Hb; [|exact Hskip].
  simpl. eexists [_]. split; [reflexivity|].
  intros l [<-|[]]. split; [exact Hin|]. exists ua, ub. simpl. repeat split; assumption.
Qed.

Lemma visitLinks_emit (neighborId : string) (ls : list (string * Graph.Link))
    (v : Highlight.locals) :
  exists new : list Highlight.link,
    Highlight.linkUIs
      (fst (forEach (fun ol => visitLink st ui neighbors secondaryLinkColor neighborId (fst ol))
                    ls v))
    = Highlight.linkUIs v ++ new
    /\ forall l, In l new -> exists ol, In ol ls /\ linkBetween st ui neighbors secondaryLinkColor l neighborId (fst ol).
Proof.
  revert v. induction ls as [|ol ls IH]; intros v; simpl.
  - exists []. rewrite app_nil_r. split; [reflexivity|]. intros l [].
  - unfold bind.
    destruct (visitLink_emits neighborId (fst ol) v) as (new1 & Hl1 & Hs1).
    destruct (visitLink st ui neighbors secondaryLinkColor neighborId (fst ol) v)
      as [v1 [[]|e]]; simpl in Hl1.
    + destruct (IH v1) as (new2 & Hl2 & Hs2). exists (new1 ++ new2). split.
      * rewrite Hl2, Hl1, app_assoc. reflexivity.
      * intros l Hin. apply in_app_or in Hin as [Hin|Hin].
        -- exists ol. split; [left; reflexivity|apply Hs1, Hin].
        -- destruct (Hs2 l Hin) as (ol' & Hol & Hb). exists ol'. split; [right|]; assumption.
    + exists new1. split; [exact Hl1|]. intros l Hin.
      exists ol. split; [left; reflexivity|apply Hs1, Hin].
Qed.

(** A visit returns when the node it starts from is registered and the
    members it can reach are. *)
Lemma visitLink_returns (neighborId other : string) (v : Highlight.locals) :
  is_Some (nodeNameToUI st !! neighborId) ->
  (forall n, setHas n neighbors = true -> is_Some (nodeNameToUI st !! n)) ->
  snd (visitLink st ui neighbors secondaryLinkColor neighborId other v) = Ok tt.
Proof.
  intros [ua Ha] Hreg.
  cbv [visitLink positionOf bind gets modify ret throw].
  destruct (setHas other neighbors) eqn:Hin; simpl; [|reflexivity].
  destruct ((maxLinks <? Highlight.idx v) &&
            negb (String.eqb neighborId (UI.name ui) || String.eqb other (UI.name ui)));
    simpl; [reflexivity|].
  rewrite Ha. destruct (Hreg other Hin) as [ub ->]. reflexivity.
Qed.

Lemma forEach_returns {S A} (f : A -> M S unit) (xs : list A) :
  (forall x v, In x xs -> snd (f x v) = Ok tt) ->
  forall v, snd (forEach f xs v) = Ok tt.
Proof.
  induction xs as [|x xs IH]; intros Hf v; simpl; [reflexivity|].
  unfold bind. specialize (Hf x v (or_introl eq_refl)) as Hx.
  destruct (f x v) as [v1 [[]|e]]; simpl in Hx; [|discriminate].
  apply IH. intros y w Hy. apply Hf. right. exact Hy.
Qed.

Lemma visitNeighbor_returns (neighborId : string) (v : Highlight.locals) :
  is_Some (nodeNameToUI st !! neighborId) ->
  (forall n, setHas n neighbors = true -> is_Some (nodeNameToUI st !! n)) ->
  snd (visitNeighbor st graph ui neighbors secondaryLinkColor neighborId v) = Ok tt.
Proof.
  intros Ha Hreg. unfold visitNeighbor, Graph.forEachLinkedNode, bind, modify. simpl.
  apply forEach_returns. intros ol w _. apply visitLink_returns; assumption.
Qed.

End LinkShapeFacts.

Lemma Forall2_In_r {A B} (P : A -> B -> Prop) (xs : list A) (ys : list B) (y : B) :
  Forall2 P xs ys -> In y ys -> exists x, x ∈ xs /\ P x y.
Proof.
  induction 1 as [|x0 y0 xs ys Hxy Hall IH]; intros Hin; [destruct Hin|].
  destruct Hin as [<-|Hin].
  - exists x0. split; [apply list_elem_of_here|exact Hxy].
  - destruct (IH Hin) as (x & Hx & Hp). exists x.
    split; [apply list_elem_of_further, Hx|exact Hp].
Qed.

Lemma linkedNodes_spec (g : Graph.t) (id : string) (ol : string * Graph.Link) :
  In ol (Graph.linkedNodes g id) ->
  In (snd ol) g
  /\ ((Graph.fromId (snd ol) = id /\ Graph.toId (snd ol) = fst ol)
      \/ (Graph.toId (snd ol) = id /\ Graph.fromId (snd ol) = fst ol)).
Proof.
  unfold Graph.linkedNodes. intros Hin. apply in_map_iff in Hin as (l & <- & Hl).
  apply linksOf_spec in Hl as [Hl Hends]. simpl. split; [exact Hl|].
  destruct (otherEnd_spec id l Hends) as [[Hf Ho]|[Ht Ho]]; rewrite Ho; auto.
Qed.

(** X18. On a state the handlers can reach, [getHighlightedLinks] never
    throws for a reference whose component is known, whatever the graph:
    every member of a component is a registered node, so that every
    position it reads exists. *)
Theorem highlighted_links_never_throw `{Collaborators} (st : Renderer) (graph : Graph.t)
    (ui : UI.t) (neighbors : list string) :
  reachable st ->
  nodesByComponent st !! UI.componentId ui = Some neighbors ->
  exists out, getHighlightedLinks st (Some graph) ui = Ok out.
Proof.
  intros Hreach Hm. pose proof (reachable_consistent st Hreach) as C.
  assert (forall n, setHas n neighbors = true -> is_Some (nodeNameToUI st !! n)) as Hreg.
  { intros n Hn. apply setHas_true in Hn.
    destruct (members_registered st C _ neighbors n Hm Hn) as (u & Hu & _). eauto. }
  unfold getHighlightedLinks. rewrite Hm.
  pose proof (forEach_returns
                (visitNeighbor st graph ui neighbors
                   (complimentaryColor st !! UI.componentId ui)) neighbors) as Hall.
  specialize (Hall (fun n v Hin =>
                      visitNeighbor_returns st graph ui neighbors _ n v
                        (Hreg n (proj2 (setHas_true n neighbors)
                                   (proj2 (list_elem_of_In neighbors n) Hin))) Hreg)
                   {| Highlight.idx := 0; Highlight.linkUIs := [] |}).
  destruct (forEach _ neighbors _) as [v [[]|e]]; simpl in Hall; [eauto|discriminate].
Qed.

Lemma highlighted_links_never_throw_witness :
  exists out, getHighlightedLinks capSample (Some capGraph) capFocus = Ok out.
Proof.
  apply (highlighted_links_never_throw (H := sampleCollaborators) capSample capGraph capFocus
           ["u"; "n"; "m01"; "m02"; "m03"; "m04"; "m05"; "m06";
            "m07"; "m08"; "m09"; "m10"; "m11"; "m12"]).
  - eexists. reflexivity.
  - vm_compute. reflexivity.
Defined.

(** Whenever [getHighlightedLinks] returns, its result is made of the
    links of each node of the focused node's cluster, one node after the
    other. *)
Lemma highlighted_links_parts (st : Renderer) (graph : Graph.t) (ui : UI.t)
    (out : list Highlight.link) :
  getHighlightedLinks st (Some graph) ui = Ok out ->
  exists (neighbors : list string) (parts : list (list Highlight.link)),
    nodesByComponent st !! UI.componentId ui = Some neighbors
    /\ out = concat parts
    /\ Forall2 (fun n part => linksFrom st graph ui neighbors n = Ok part) neighbors parts.
Proof.
  unfold getHighlightedLinks.
  destruct (nodesByComponent st !! UI.componentId ui) as [neighbors|]; [|discriminate].
  destruct (forEach _ neighbors _) as [v [[]|e]] eqn:Hloop; [|discriminate].
  intros [= <-].
  destruct (visitNeighbors_parts st graph ui neighbors _ neighbors _ _ Hloop)
    as (parts & Hl & Hall).
  exists neighbors, parts. split; [reflexivity|]. split; [exact Hl|].
  eapply Forall2_impl; [exact Hall|].
  intros n part (w & Hw & <-). unfold linksFrom. rewrite Hw. reflexivity.
Qed.

(** X19. Every link [getHighlightedLinks] returns joins two members of
    the focused node's cluster that a link of the graph connects: it goes
    from the position of one to the position of the other, is first-level
    exactly when one of them is the focused node, and is white when it is
    first-level and of the cluster's complementary colour (if there is one)
    otherwise. *)
Theorem highlighted_links_stay_in_cluster (st : Renderer) (graph : Graph.t) (ui : UI.t)
    (out : list Highlight.link) (l : Highlight.link) :
  getHighlightedLinks st (Some graph) ui = Ok out ->
  In l out ->
  exists (neighbors : list string) (a b : string) (ua ub : UI.t) (lk : Graph.Link),
    nodesByComponent st !! UI.componentId ui = Some neighbors
    /\ a ∈ neighbors /\ b ∈ neighbors
    /\ In lk graph
    /\ ((Graph.fromId lk = a /\ Graph.toId lk = b)
        \/ (Graph.toId lk = a /\ Graph.fromId lk = b))
    /\ nodeNameToUI st !! a = Some ua /\ nodeNameToUI st !! b = Some ub
    /\ Highlight.from l = UI.position ua /\ Highlight.to l = UI.position ub
    /\ Highlight.isFirstLevel l = (String.eqb a (UI.name ui) || String.eqb b (UI.name ui))
    /\ Highlight.color l =
       if Highlight.isFirstLevel l then Some 0xffffffff
       else complimentaryColor st !! UI.componentId ui.
Proof.
  intros Hout Hin.
  destruct (highlighted_links_parts st graph ui out Hout) as (neighbors & parts & Hm & -> & Hall).
  apply in_concat in Hin as (part & Hpart & Hin).
  destruct (Forall2_In_r _ _ _ part Hall Hpart) as (n & Hn & Hfrom).
  unfold linksFrom, visitNeighbor, Graph.forEachLinkedNode, bind, modify in Hfrom.
  simpl in Hfrom.
  destruct (visitLinks_emit st ui neighbors (complimentaryColor st !! UI.componentId ui)
              n (Graph.linkedNodes graph n)
              {| Highlight.idx := 0; Highlight.linkUIs := [] |}) as (new & Hl & Hs).
  destruct (forEach _ _ _) as [v [[]|e]]; [|discriminate].
  injection Hfrom as <-. simpl in Hl. rewrite Hl in Hin.
  destruct (Hs l Hin) as (ol & Hol & Hmem & ua & ub & Ha & Hb & Hf & Ht & Hfl & Hc).
  destruct (linkedNodes_spec graph n ol Hol) as (Hlk & Hends).
  exists neighbors, n, (fst ol), ua, ub, (snd ol).
  split; [exact Hm|]. split; [exact Hn|]. split; [apply setHas_true, Hmem|].
  repeat split; assumption.
Qed.

Lemma highlighted_links_stay_in_cluster_witness :
  exists (neighbors : list string) (a b : string) (ua ub : UI.t) (lk : Graph.Link),
    nodesByComponent namesSample !! "c" = Some neighbors
    /\ a ∈ neighbors /\ b ∈ neighbors
    /\ In lk [link "b" "a"; link "a" "x"]
    /\ ((Graph.fromId lk = a /\ Graph.toId lk = b)
        \/ (Graph.toId lk = a /\ Graph.fromId lk = b))
    /\ nodeNameToUI namesSample !! a = Some ua /\ nodeNameToUI namesSample !! b = Some ub
    /\ (1, 1022, 0)%float = UI.position ua /\ (4, 1019, 0)%float = UI.position ub
    /\ true = (String.eqb a "a" || String.eqb b "a")
    /\ Some 4294967295 = Some 0xffffffff.
Proof.
  apply (highlighted_links_stay_in_cluster namesSample [link "b" "a"; link "a" "x"] sampleA
           [{| Highlight.from := (1, 1022, 0)%float; Highlight.to := (4, 1019, 0)%float;
               Highlight.color := Some 4294967295; Highlight.isFirstLevel := true |};
            {| Highlight.from := (4, 1019, 0)%float; Highlight.to := (1, 1022, 0)%float;
               Highlight.color := Some 4294967295; Highlight.isFirstLevel := true |}]
           {| Highlight.from := (1, 1022, 0)%float; Highlight.to := (4, 1019, 0)%float;
              Highlight.color := Some 4294967295; Highlight.isFirstLevel := true |}).
  - vm_compute. reflexivity.
  - left. reflexivity.
Defined.




(* ===================================================================== *)
(** * More on the related subgraph *)
(* ===================================================================== *)

Section ClosureFacts.

Lemma fold_setAdd_elem (ys s : list string) (x : string) :
  x ∈ fold_left (fun s y => setAdd y s) ys s <-> x ∈ s \/ x ∈ ys.
Proof.
  revert s. induction ys as [|y ys IH]; intros s; simpl.
  - split; [auto|]. intros [Hx|Hx]; [exact Hx|inversion Hx].
  - rewrite IH, setAdd_elem, elem_of_cons. tauto.
Qed.

Lemma fold_setAdd_NoDup (ys s : list string) :
  NoDup s -> NoDup (fold_left (fun s y => setAdd y s) ys s).
Proof.
  revert s. induction ys as [|y ys IH]; intros s Hs; simpl; [exact Hs|].
  apply IH, setAdd_NoDup, Hs.
Qed.

Lemma addNeighbors_run (graph : Graph.t) (node : string) (s : list string) :
  addNeighbors graph node s =
  (fold_left (fun s y => setAdd y s) (map fst (Graph.linkedNodes graph node)) s, Ok tt).
Proof.
  unfold addNeighbors, Graph.forEachLinkedNode, modify.
  rewrite (forEach_modify (fun (ol : string * Graph.Link) s => setAdd (fst ol) s)).
  f_equal. generalize (Graph.linkedNodes graph node). intros ls. revert s.
  induction ls as [|ol ls IH]; intros s; simpl; [reflexivity|apply IH].
Qed.

Lemma linkedNodes_linked (graph : Graph.t) (node x : string) :
  x ∈ map fst (Graph.linkedNodes graph node) <-> linked graph node x.
Proof.
  rewrite list_elem_of_In, in_map_iff. split.
  - intros (ol & <- & Hol). destruct (linkedNodes_spec graph node ol Hol) as [Hl Hends].
    exists (snd ol). split; [exact Hl|exact Hends].
  - intros (l & Hl & Hends). exists (Graph.otherEnd node l, l). split.
    + unfold Graph.otherEnd. simpl.
      destruct Hends as [[Hf Ht]|[Ht Hf]].
      * rewrite Hf, String.eqb_refl. exact Ht.
      * destruct (String.eqb_spec (Graph.fromId l) node) as [Heq|Hne]; congruence.
    + unfold Graph.linkedNodes. apply in_map_iff. exists l. split; [reflexivity|].
      apply linksOf_spec. split; [exact Hl|].
      destruct Hends as [[Hf _]|[Ht _]]; auto.
Qed.

Lemma addAllNeighbors_run (graph : Graph.t) (ms s : list string) :
  exists s',
    forEach (addNeighbors graph) ms s = (s', Ok tt)
    /\ (NoDup s -> NoDup s')
    /\ forall x, x ∈ s' <-> x ∈ s \/ exists m, m ∈ ms /\ linked graph m x.
Proof.
  revert s. induction ms as [|m ms IH]; intros s; simpl.
  - exists s. split; [reflexivity|]. split; [auto|]. intros x. split; [auto|].
    intros [Hx|(m & Hm & _)]; [exact Hx|inversion Hm].
  - unfold bind. rewrite addNeighbors_run.
    destruct (IH (fold_left (fun s y => setAdd y s)
                    (map fst (Graph.linkedNodes graph m)) s)) as (s' & Hrun & Hnd & Hel).
    exists s'. split; [exact Hrun|]. split.
    + intros Hs. apply Hnd, fold_setAdd_NoDup, Hs.
    + intros x. rewrite Hel, fold_setAdd_elem, linkedNodes_linked. split.
      * intros [[Hx|Hx]|(m' & Hm' & Hl)]; [auto| |].
        -- right. exists m. split; [apply list_elem_of_here|exact Hx].
        -- right. exists m'. split; [apply list_elem_of_further, Hm'|exact Hl].
      * intros [Hx|(m' & Hm' & Hl)]; [auto|].
        apply elem_of_cons in Hm' as [->|Hm']; [auto|]. right. eauto.
Qed.

End ClosureFacts.

(** X20. The set of nodes [showRelated] works on is the two-hop
    closure of the root: a name is in it exactly when a link joins it to
    the root, or to a node that a link joins to the root; no name is in it
    twice. The root itself is in it as soon as it has a link. *)
Theorem closure_is_two_hops (graph : Graph.t) (subreddit n : string) :
  NoDup (subgraphNodes graph subreddit)
  /\ (n ∈ subgraphNodes graph subreddit <->
      linked graph subreddit n
      \/ exists m, linked graph subreddit m /\ linked graph m n)
  /\ ((exists m, linked graph subreddit m) -> subreddit ∈ subgraphNodes graph subreddit).
Proof.
  unfold subgraphNodes. rewrite addNeighbors_run. simpl.
  set (s0 := fold_left (fun s y => setAdd y s)
               (map fst (Graph.linkedNodes graph subreddit)) []).
  assert (forall x, x ∈ s0 <-> linked graph subreddit x) as H0.
  { intros x. unfold s0. rewrite fold_setAdd_elem, linkedNodes_linked.
    split; [|auto]. intros [Hx|Hx]; [inversion Hx|exact Hx]. }
  destruct (addAllNeighbors_run graph s0 s0) as (s' & Hrun & Hnd & Hel).
  rewrite Hrun. simpl.
  assert (forall x, x ∈ s' <->
            linked graph subreddit x
            \/ exists m, linked graph subreddit m /\ linked graph m x) as Hall.
  { intros x. rewrite Hel, H0. split.
    - intros [Hx|(m & Hm & Hl)]; [auto|]. right. exists m. split; [apply H0, Hm|exact Hl].
    - intros [Hx|(m & Hm & Hl)]; [auto|]. right. exists m. split; [apply H0, Hm|exact Hl]. }
  split; [|split].
  - apply Hnd. unfold s0. apply fold_setAdd_NoDup. constructor.
  - apply Hall.
  - intros [m Hm]. apply Hall. right. exists m. split; [exact Hm|].
    destruct Hm as (l & Hl & Hends). exists l. split; [exact Hl|]. tauto.
Qed.

Section RelatedFacts.

Lemma hasNode_addNode (g : Graph.sub) (m n : string) (d : option Graph.nodeData) :
  is_Some (Graph.getNode (Graph.addNode g m d) n) <->
  n = m \/ is_Some (Graph.getNode g n).
Proof.
  unfold Graph.addNode, Graph.getNode.
  destruct (Graph.findNode (Graph.nodes g) m) as [old|] eqn:Hold; simpl.
  - rewrite findNode_setData, Hold. simpl.
    destruct (String.eqb_spec m n) as [Heq|Hne].
    + subst n. split; [auto|]. intros _. eexists. reflexivity.
    + split; [auto|]. intros [Heq|Hs]; [congruence|exact Hs].
  - rewrite findNode_app.
    destruct (Graph.findNode (Graph.nodes g) n) as [x|] eqn:Hn.
    + split; [intros _; right|intros _]; eexists; reflexivity.
    + destruct (String.eqb_spec m n) as [Heq|Hne].
      * split; [auto|]. intros _. eexists. reflexivity.
      * split; [intros [y Hy]; discriminate|].
        intros [Heq|[y Hy]]; [congruence|discriminate].
Qed.

Lemma hasNode_ensureNode (g : Graph.sub) (m n : string) :
  is_Some (Graph.getNode (Graph.ensureNode g m) n) <->
  n = m \/ is_Some (Graph.getNode g n).
Proof.
  unfold Graph.ensureNode.
  destruct (Graph.getNode g m) as [old|] eqn:Hold; [|apply hasNode_addNode].
  split; [auto|]. intros [Heq|Hs]; [|exact Hs]. subst n. rewrite Hold.
  eexists. reflexivity.
Qed.

Lemma links_addNode (g : Graph.sub) (m : string) (d : option Graph.nodeData) :
  Graph.links (Graph.addNode g m d) = Graph.links g.
Proof. unfold Graph.addNode. destruct (Graph.getNode g m); reflexivity. Qed.

Lemma links_ensureNode (g : Graph.sub) (m : string) :
  Graph.links (Graph.ensureNode g m) = Graph.links g.
Proof.
  unfold Graph.ensureNode. destruct (Graph.getNode g m); [reflexivity|apply links_addNode].
Qed.

Lemma links_addLink (g : Graph.sub) (a b : string) (t : bool) :
  Graph.links (Graph.addLink g a b t) =
  Graph.links g ++ [({| Graph.fromId := a; Graph.toId := b |}, t)].
Proof. unfold Graph.addLink. simpl. rewrite !links_ensureNode. reflexivity. Qed.

Lemma hasNode_addLink (g : Graph.sub) (a b n : string) (t : bool) :
  is_Some (Graph.getNode (Graph.addLink g a b t) n) <->
  n = a \/ n = b \/ is_Some (Graph.getNode g n).
Proof.
  unfold Graph.addLink.
  change (is_Some (Graph.getNode (Graph.ensureNode (Graph.ensureNode g a) b) n)
          <-> n = a \/ n = b \/ is_Some (Graph.getNode g n)).
  rewrite !hasNode_ensureNode. tauto.
Qed.

Lemma subHasLink_In (g : Graph.sub) (l : Graph.Link) :
  Graph.subHasLink g (Graph.fromId l) (Graph.toId l) = true <->
  In l (map fst (Graph.links g)).
Proof.
  unfold Graph.subHasLink. rewrite existsb_exists, in_map_iff. split.
  - intros (x & Hin & Heq). exists x. split; [|exact Hin].
    apply andb_true_iff in Heq as [Hf Ht].
    apply String.eqb_eq in Hf. apply String.eqb_eq in Ht.
    destruct (fst x) as [a b], l as [a' b']. simpl in *. congruence.
  - intros (x & Heq & Hin). exists x. split; [exact Hin|].
    rewrite Heq, !String.eqb_refl. reflexivity.
Qed.

Lemma link_eta (l : Graph.Link) :
  {| Graph.fromId := Graph.fromId l; Graph.toId := Graph.toId l |} = l.
Proof. destruct l; reflexivity. Qed.

Variables (graph : Graph.t) (subreddit : string) (members : list string).

Lemma related_addNode (g : Graph.sub) (node : string) (d : option Graph.nodeData) :
  setHas node members = true \/ node = subreddit ->
  related graph subreddit members g ->
  related graph subreddit members (Graph.addNode g node d).
Proof.
  intros Hnode [Hl Hd Hn]. split.
  - rewrite links_addNode. exact Hl.
  - rewrite links_addNode. exact Hd.
  - intros n Hs. apply hasNode_addNode in Hs as [Heq|Hs]; [|apply Hn, Hs].
    subst n. destruct Hnode; auto.
Qed.

Lemma related_addLink (g : Graph.sub) (l : Graph.Link) :
  In l graph ->
  setHas (Graph.fromId l) members = true ->
  setHas (Graph.toId l) members = true ->
  Graph.subHasLink g (Graph.fromId l) (Graph.toId l) = false ->
  related graph subreddit members g ->
  related graph subreddit members
    (Graph.addLink g (Graph.fromId l) (Graph.toId l) (linkTag subreddit l)).
Proof.
  intros Hin Hf Ht Hnew [Hl Hd Hn]. split.
  - intros l' t. rewrite links_addLink, link_eta, in_app_iff. simpl.
    intros [Hold|[Heq|[]]]; [apply Hl, Hold|]. injection Heq as <- <-. auto.
  - rewrite links_addLink, link_eta, map_app. simpl.
    apply NoDup_ListNoDup, NoDup_app. split; [apply NoDup_ListNoDup, Hd|]. split.
    + intros x Hx Hx'. apply list_elem_of_singleton in Hx'. subst x.
      apply list_elem_of_In, subHasLink_In in Hx. congruence.
    + apply NoDup_singleton.
  - intros n Hs. apply hasNode_addLink in Hs as [Heq|[Heq|Hs]]; [subst n; auto..|].
    apply Hn, Hs.
Qed.

(** The loop over the links of a member keeps the subgraph [related], drops
    no link, and leaves in it every visited link whose other end is a
    member. *)
Lemma relateLinks_related (node : string) (ls : list (string * Graph.Link))
    (g g' : Graph.sub) (r : result unit) :
  setHas node members = true ->
  (forall ol, In ol ls -> In ol (Graph.linkedNodes graph node)) ->
  related graph subreddit members g ->
  forEach (fun ol : string * Graph.Link =>
    if negb (setHas (fst ol) members) then ret tt
    else
      present <- gets (fun subgraph =>
        Graph.subHasLink subgraph (Graph.fromId (snd ol)) (Graph.toId (snd ol))) ;;
      if present then ret tt
      else
        modify (fun subgraph =>
          Graph.addLink subgraph (Graph.fromId (snd ol)) (Graph.toId (snd ol))
            (String.eqb (Graph.fromId (snd ol)) subreddit
             || String.eqb (Graph.toId (snd ol)) subreddit))) ls g = (g', r) ->
  related graph subreddit members g'
  /\ (forall x, In x (Graph.links g) -> In x (Graph.links g'))
  /\ (forall ol, In ol ls -> setHas (fst ol) members = true ->
        In (snd ol) (map fst (Graph.links g'))).
Proof.
  intros Hnode. revert g. induction ls as [|ol ls IH]; intros g Hsub Hrel; simpl.
  - intros [= <- _]. split; [exact Hrel|]. split; [auto|]. intros ol [].
  - assert (forall ol', In ol' ls -> In ol' (Graph.linkedNodes graph node)) as Hsub'.
    { intros ol' Hol'. apply Hsub. right. exact Hol'. }
    unfold bind at 1.
    destruct (setHas (fst ol) members) eqn:Hm; simpl.
    + unfold bind at 1, gets at 1.
      destruct (Graph.subHasLink g (Graph.fromId (snd ol)) (Graph.toId (snd ol))) eqn:Hp.
      * intros Hrun. destruct (IH g Hsub' Hrel Hrun) as (Hrel' & Hmono & Hall).
        split; [exact Hrel'|]. split; [exact Hmono|].
        intros ol' [Heq|Hol'] Hm'; [subst ol'|apply Hall; assumption].
        apply subHasLink_In, in_map_iff in Hp as (x & Hx & Hin).
        apply in_map_iff. exists x. split; [exact Hx|apply Hmono, Hin].
      * unfold modify at 1. intros Hrun.
        destruct (linkedNodes_spec graph node ol (Hsub ol (or_introl eq_refl)))
          as [Hin Hends].
        assert (setHas (Graph.fromId (snd ol)) members = true
                /\ setHas (Graph.toId (snd ol)) members = true) as [Hf Ht].
        { destruct Hends as [[-> ->]|[-> ->]]; auto. }
        assert (related graph subreddit members
                  (Graph.addLink g (Graph.fromId (snd ol)) (Graph.toId (snd ol))
                     (String.eqb (Graph.fromId (snd ol)) subreddit
                      || String.eqb (Graph.toId (snd ol)) subreddit))) as Hrel1.
        { apply (related_addLink g (snd ol)); assumption. }
        destruct (IH _ Hsub' Hrel1 Hrun) as (Hrel' & Hmono & Hall).
        split; [exact Hrel'|]. split.
        -- intros x Hx. apply Hmono. rewrite links_addLink. apply in_app_iff. auto.
        -- intros ol' [Heq|Hol'] Hm'; [subst ol'|apply Hall; assumption].
           apply in_map_iff. eexists. split; [|apply Hmono; rewrite links_addLink;
             apply in_app_iff; right; left; reflexivity].
           simpl. apply link_eta.
    + intros Hrun. destruct (IH g Hsub' Hrel Hrun) as (Hrel' & Hmono & Hall).
      split; [exact Hrel'|]. split; [exact Hmono|].
      intros ol' [Heq|Hol'] Hm'; [subst ol'; congruence|apply Hall; assumption].
Qed.

Lemma relateNode_related (node : string) (g g' : Graph.sub) (r : result unit) :
  setHas node members = true ->
  related graph subreddit members g ->
  relateNode graph subreddit members node g = (g', r) ->
  related graph subreddit members g'
  /\ (forall x, In x (Graph.links g) -> In x (Graph.links g'))
  /\ (forall l, In l graph -> Graph.fromId l = node ->
        setHas (Graph.toId l) members = true -> In l (map fst (Graph.links g'))).
Proof.
  intros Hnode Hrel. unfold relateNode, Graph.forEachLinkedNode.
  unfold bind at 1. unfold bind at 1. unfold gets at 1.
  assert (forall g0 : Graph.sub,
            related graph subreddit members g0 ->
            (forall x, In x (Graph.links g) -> In x (Graph.links g0)) ->
            forEach (fun ol : string * Graph.Link =>
              if negb (setHas (fst ol) members) then ret tt
              else
                present <- gets (fun subgraph =>
                  Graph.subHasLink subgraph (Graph.fromId (snd ol)) (Graph.toId (snd ol))) ;;
                if present then ret tt
                else
                  modify (fun subgraph =>
                    Graph.addLink subgraph (Graph.fromId (snd ol)) (Graph.toId (snd ol))
                      (String.eqb (Graph.fromId (snd ol)) subreddit
                       || String.eqb (Graph.toId (snd ol)) subreddit)))
              (Graph.linkedNodes graph node) g0 = (g', r) ->
            related graph subreddit members g'
            /\ (forall x, In x (Graph.links g) -> In x (Graph.links g'))
            /\ (forall l, In l graph -> Graph.fromId l = node ->
                  setHas (Graph.toId l) members = true ->
                  In l (map fst (Graph.links g')))) as Hloop.
  { intros g0 Hrel0 Hmono0 Hrun.
    destruct (relateLinks_related node (Graph.linkedNodes graph node) g0 g' r
                Hnode (fun _ H => H) Hrel0 Hrun) as (Hrel' & Hmono & Hall).
    split; [exact Hrel'|]. split; [auto|].
    intros l Hl Hf Ht.
    apply (Hall (Graph.otherEnd node l, l)).
    - unfold Graph.linkedNodes. apply in_map_iff. exists l. split; [reflexivity|].
      apply linksOf_spec. auto.
    - simpl. unfold Graph.otherEnd. rewrite Hf, String.eqb_refl. exact Ht. }
  destruct (Graph.getNode g node) as [[d1|]|] eqn:Hn.
  - unfold ret at 1. apply Hloop; [exact Hrel|auto].
  - unfold modify at 1. apply Hloop.
    + apply related_addNode; [auto|exact Hrel].
    + intros x Hx. rewrite links_addNode. exact Hx.
  - unfold modify at 1. apply Hloop.
    + apply related_addNode; [auto|exact Hrel].
    + intros x Hx. rewrite links_addNode. exact Hx.
Qed.

Lemma relateAll_related (ms : list string) (g g' : Graph.sub) (r : result unit) :
  (forall m, In m ms -> setHas m members = true) ->
  related graph subreddit members g ->
  forEach (relateNode graph subreddit members) ms g = (g', r) ->
  related graph subreddit members g'
  /\ (forall x, In x (Graph.links g) -> In x (Graph.links g'))
  /\ (forall l, In l graph -> In (Graph.fromId l) ms ->
        setHas (Graph.toId l) members = true -> In l (map fst (Graph.links g'))).
Proof.
  revert g. induction ms as [|m ms IH]; intros g Hms Hrel; simpl.
  - intros [= <- _]. split; [exact Hrel|]. split; [auto|]. intros l _ [].
  - unfold bind.
    destruct (relateNode graph subreddit members m g) as [g1 [[]|e]] eqn:Hrun1.
    + destruct (relateNode_related m g g1 _ (Hms m (or_introl eq_refl)) Hrel Hrun1)
        as (Hrel1 & Hmono1 & Hall1).
      intros Hrun.
      destruct (IH g1 (fun m' H => Hms m' (or_intror H)) Hrel1 Hrun)
        as (Hrel' & Hmono & Hall).
      split; [exact Hrel'|]. split; [auto|].
      intros l Hl [Heq|Hin] Ht; [|apply Hall; assumption].
      apply in_map_iff.
      destruct (proj1 (in_map_iff _ _ _) (Hall1 l Hl (eq_sym Heq) Ht)) as (x & Hx & Hin).
      exists x. split; [exact Hx|apply Hmono, Hin].
    + destruct (relateNode_settled graph subreddit members m g) as (g2 & Hrun2 & _).
      congruence.
Qed.

End RelatedFacts.

(** The run of [showRelated] on a loaded graph, with everything the
    loops keep. *)
Lemma showRelated_run (graph : Graph.t) (subreddit : string) :
  exists subgraph,
    showRelated (Some graph) subreddit = Ok subgraph
    /\ tagged graph subreddit subgraph
    /\ (forall n, n ∈ subgraphNodes graph subreddit -> exists d, settled subgraph n d)
    /\ related graph subreddit (subgraphNodes graph subreddit) subgraph
    /\ (forall l, In l graph ->
          setHas (Graph.fromId l) (subgraphNodes graph subreddit) = true ->
          setHas (Graph.toId l) (subgraphNodes graph subreddit) = true ->
          In l (map fst (Graph.links subgraph))).
Proof.
  unfold showRelated.
  set (members := subgraphNodes graph subreddit).
  set (g0 := Graph.addNode Graph.createGraph subreddit (Some (Graph.IsRoot true))).
  assert (tagged graph subreddit g0) as Ht0.
  { split.
    - apply settled_addNode. left. split; reflexivity.
    - intros n d Hs Hne. apply settled_addNode in Hs as [[Heq _]|[_ Hs]];
        [contradiction|discriminate]. }
  assert (related graph subreddit members g0) as Hr0.
  { apply related_addNode; [auto|]. split; simpl.
    - intros l t [].
    - constructor.
    - intros n [y Hy]. discriminate. }
  destruct (relateAll_tagged graph subreddit members members g0 Ht0)
    as (g' & Hrun & Ht & _ & Hall).
  destruct (relateAll_related graph subreddit members members g0 g' (Ok tt))
    as (Hr & _ & Hlinks).
  { intros m Hm. apply setHas_true, list_elem_of_In, Hm. }
  { exact Hr0. }
  { exact Hrun. }
  rewrite Hrun. exists g'. split; [reflexivity|]. split; [exact Ht|].
  split; [exact Hall|]. split; [exact Hr|].
  intros l Hl Hf Ht'. apply Hlinks; [exact Hl| |exact Ht'].
  apply list_elem_of_In, setHas_true, Hf.
Qed.

(** X21. On a loaded graph [showRelated] returns a subgraph whose nodes
    are the root and the nodes of the two-hop closure, and nothing else;
    every one of them carries data, and the root keeps the data
    [{isRoot: true}] even when the closure contains it. *)
Theorem related_subgraph_nodes (graph : Graph.t) (subreddit : string) :
  exists subgraph,
    showRelated (Some graph) subreddit = Ok subgraph
    /\ Graph.getNode subgraph subreddit = Some (Some (Graph.IsRoot true))
    /\ (forall n, is_Some (Graph.getNode subgraph n) <->
                  n = subreddit \/ n ∈ subgraphNodes graph subreddit)
    /\ (forall n, is_Some (Graph.getNode subgraph n) ->
                  exists d, Graph.getNode subgraph n = Some (Some d)).
Proof.
  destruct (showRelated_run graph subreddit)
    as (sub & Hrun & [Hroot _] & Hall & [_ _ Hnodes] & _).
  exists sub. split; [exact Hrun|]. split; [exact Hroot|].
  assert (forall n, n = subreddit \/ n ∈ subgraphNodes graph subreddit ->
                    exists d, Graph.getNode sub n = Some (Some d)) as Hdata.
  { intros n [Heq|Hin]; [subst n; eexists; exact Hroot|apply Hall, Hin]. }
  assert (forall n, is_Some (Graph.getNode sub n) ->
                    n = subreddit \/ n ∈ subgraphNodes graph subreddit) as Hback.
  { intros n Hs. destruct (Hnodes n Hs) as [Heq|Hm]; [auto|].
    right. apply setHas_true, Hm. }
  split.
  - intros n. split; [apply Hback|]. intros Hn. destruct (Hdata n Hn) as [d Hd].
    rewrite Hd. eexists. reflexivity.
  - intros n Hs. apply Hdata, Hback, Hs.
Qed.

(** X22. The links of the subgraph [showRelated] returns are the links
    of the full graph with both ends in the two-hop closure, each of them
    once, and a link is tagged [isRootLevel] exactly when one of its ends
    is the root. *)
Theorem related_subgraph_links (graph : Graph.t) (subreddit : string) :
  exists subgraph,
    showRelated (Some graph) subreddit = Ok subgraph
    /\ List.NoDup (map fst (Graph.links subgraph))
    /\ forall l t,
         In (l, t) (Graph.links subgraph) <->
         In l graph
         /\ Graph.fromId l ∈ subgraphNodes graph subreddit
         /\ Graph.toId l ∈ subgraphNodes graph subreddit
         /\ t = linkTag subreddit l.
Proof.
  destruct (showRelated_run graph subreddit)
    as (sub & Hrun & _ & _ & [Hlinks Hnd _] & Hall).
  exists sub. split; [exact Hrun|]. split; [exact Hnd|].
  intros l t. rewrite <- !setHas_true. split; [apply Hlinks|].
  intros (Hl & Hf & Ht & Htag).
  destruct (proj1 (in_map_iff _ _ _) (Hall l Hl Hf Ht)) as ([l' t'] & Heq & Hin).
  simpl in Heq. subst l'.
  destruct (Hlinks l t' Hin) as (_ & _ & _ & Htag'). congruence.
Qed.

(* ===================================================================== *)
(** * More on the colours *)
(* ===================================================================== *)

Section PackingFacts.

Lemma bytes_checked (P : Z -> bool) :
  forallb P (integersFrom 0 256) = true -> forall z, 0 <= z < 256 -> P z = true.
Proof.
  intros Hall z Hz. rewrite forallb_forall in Hall. apply Hall, In_integersFrom. lia.
Qed.

Lemma channel_shiftr (color k : Z) :
  0 <= k -> channel color k = Z.land (Z.shiftr color k) 255.
Proof. intros Hk. unfold channel. rewrite land_255, Z.shiftr_div_pow2 by lia. reflexivity. Qed.

(** The byte shifted to bit [k] shows at bit [k] and nowhere else; only
    the one shifted to bit 24 can set the sign. *)
Lemma shifted_byte (k z : Z) :
  k = 24 \/ k = 16 \/ k = 8 ->
  0 <= z < 256 ->
  let a := JS.shl (JS.ToInt32 (JS.ofZ z)) k in
  (forall j, j = 24 \/ j = 16 \/ j = 8 \/ j = 0 ->
     Z.land (Z.shiftr a j) 255 = if j =? k then z else 0)
  /\ (a < 0 <-> k = 24 /\ 128 <= z).
Proof.
  intros Hk Hz a.
  assert (forallb (fun k =>
            forallb (fun z =>
              forallb (fun j =>
                  Z.land (Z.shiftr (JS.shl (JS.ToInt32 (JS.ofZ z)) k) j) 255
                  =? (if j =? k then z else 0))
                [24; 16; 8; 0]
              && Bool.eqb (JS.shl (JS.ToInt32 (JS.ofZ z)) k <? 0)
                          ((k =? 24) && (128 <=? z)))
              (integersFrom 0 256))
            [24; 16; 8] = true) as Hall by (vm_compute; reflexivity).
  rewrite forallb_forall in Hall.
  assert (In k [24; 16; 8]) as Hin by (simpl; intuition).
  pose proof (bytes_checked _ (Hall k Hin) z Hz) as Hz'. cbv beta in Hz'.
  apply andb_true_iff in Hz' as [Hbits Hsign].
  rewrite forallb_forall in Hbits. split.
  - intros j Hj. apply Z.eqb_eq, Hbits. simpl. intuition.
  - apply Bool.eqb_prop in Hsign. fold a in Hsign.
    rewrite <- Z.ltb_lt, Hsign, andb_true_iff, Z.eqb_eq, Z.leb_le. reflexivity.
Qed.

End PackingFacts.

(** X23. For three bytes, [hexColor] packs red, green and blue above an
    opaque alpha byte: the channels [getComplimentaryColor] reads back
    are the bytes given, and the lowest byte is [0xff]. The result is a
    signed 32-bit value: it is negative exactly when red is 128 or more. *)
Theorem hex_color_packs_bytes (r g b : Z)
    (Hr : 0 <= r < 256) (Hg : 0 <= g < 256) (Hb : 0 <= b < 256) :
  let color := hexColor [JS.ofZ r; JS.ofZ g; JS.ofZ b] in
  channel color 24 = r /\ channel color 16 = g /\ channel color 8 = b
  /\ channel color 0 = 255
  /\ (color < 0 <-> 128 <= r).
Proof.
  intros color. unfold color, hexColor, JS.bor. cbn [nth].
  destruct (shifted_byte 24 r ltac:(tauto) Hr) as [Hr1 Hr2].
  destruct (shifted_byte 16 g ltac:(tauto) Hg) as [Hg1 Hg2].
  destruct (shifted_byte 8 b ltac:(tauto) Hb) as [Hb1 Hb2].
  cbv zeta in Hr1, Hr2, Hg1, Hg2, Hb1, Hb2.
  repeat split.
  - rewrite channel_shiftr, !Z.shiftr_lor, !Z.land_lor_distr_l, Hr1, Hg1, Hb1 by (tauto || lia).
    simpl. rewrite !Z.lor_0_r. reflexivity.
  - rewrite channel_shiftr, !Z.shiftr_lor, !Z.land_lor_distr_l, Hr1, Hg1, Hb1 by (tauto || lia).
    simpl. rewrite !Z.lor_0_r. reflexivity.
  - rewrite channel_shiftr, !Z.shiftr_lor, !Z.land_lor_distr_l, Hr1, Hg1, Hb1 by (tauto || lia).
    simpl. rewrite !Z.lor_0_r. reflexivity.
  - rewrite channel_shiftr, !Z.shiftr_lor, !Z.land_lor_distr_l, Hr1, Hg1, Hb1 by (tauto || lia).
    reflexivity.
  - rewrite !Z.lor_neg. intros [[[Hn|Hn]|Hn]|Hn]; [apply Hr2 in Hn; tauto| | |lia].
    + apply Hg2 in Hn. lia.
    + apply Hb2 in Hn. lia.
  - intros Hn. rewrite !Z.lor_neg. left. left. left. apply Hr2. auto.
Qed.

Lemma hex_color_packs_bytes_witness :
  let color := hexColor [JS.ofZ 200; JS.ofZ 100; JS.ofZ 50] in
  channel color 24 = 200 /\ channel color 16 = 100 /\ channel color 8 = 50
  /\ channel color 0 = 255
  /\ (color < 0 <-> 128 <= 200).
Proof. apply (hex_color_packs_bytes 200 100 50); lia. Defined.

(** X24. The complementary colour of a grey fill is a grey: for a fill
    whose three bytes are equal, the three channels of
    [getComplimentaryColor(hexColor(fill))] are equal too; the grey gets
    darker when the byte is 128 or more and does not get darker otherwise,
    and the alpha byte is [0xaa]. *)
Theorem grey_fill_has_grey_complement (v : Z) (Hv : 0 <= v < 256) :
  let color :=
    getComplimentaryColor (hexColor [JS.ofZ v; JS.ofZ v; JS.ofZ v]) None None in
  channel color 24 = channel color 16
  /\ channel color 16 = channel color 8
  /\ (if v <? 128 then v <= channel color 8 else channel color 8 < v)
  /\ channel color 0 = 170.
Proof.
  assert (forallb (fun v =>
            let color :=
              getComplimentaryColor (hexColor [JS.ofZ v; JS.ofZ v; JS.ofZ v]) None None in
            (channel color 24 =? channel color 16)
            && (channel color 16 =? channel color 8)
            && (if v <? 128 then v <=? channel color 8 else channel color 8 <? v)
            && (channel color 0 =? 170))
            (integersFrom 0 256) = true) as Hall by (vm_compute; reflexivity).
  pose proof (bytes_checked _ Hall v Hv) as Hv'. cbv zeta in Hv' |- *.
  apply andb_true_iff in Hv' as [Hv' H4]. apply andb_true_iff in Hv' as [Hv' H3].
  apply andb_true_iff in Hv' as [H1 H2].
  apply Z.eqb_eq in H1, H2, H4.
  split; [exact H1|]. split; [exact H2|]. split; [|exact H4].
  destruct (v <? 128); [apply Z.leb_le, H3|apply Z.ltb_lt, H3].
Qed.

Lemma grey_fill_has_grey_complement_witness :
  let color :=
    getComplimentaryColor (hexColor [JS.ofZ 128; JS.ofZ 128; JS.ofZ 128]) None None in
  channel color 24 = channel color 16
  /\ channel color 16 = channel color 8
  /\ (if 128 <? 128 then 128 <= channel color 8 else channel color 8 < 128)
  /\ channel color 0 = 170.
Proof. apply (grey_fill_has_grey_complement 128); lia. Defined.
